(** * vault-games-api: the Game service (src/games/game.service.ts)

    A shallow embedding of [GameService] and of the part of the Mongoose
    model API it calls, followed by the properties of the service that the
    specification states.

    The service is written against two injected models ([gameModel],
    [userModel]).  Their collections, the clock read by [new Date()], the
    logger output and the failures of the driver are the components of one
    explicit [World]; every service method is a computation in a small state
    and exception monad over it. *)

From Stdlib Require Import ZArith.
From stdpp Require Import gmap strings list fin_maps sorting pretty.

Local Open Scope string_scope.
Local Open Scope Z_scope.

(** ** Documents *)

Definition Id := string.
Definition Date := Z.

(** Modelled from the spec: the Game schema (src/games/schemas/game.schemas.ts
    is not part of the sources).  Section 3 of the specification lists the
    fields; [status] is optional on create, in which case the store applies
    its own default, so a stored document always carries one. *)
Record GameDoc := mkGame {
  g_id : Id;
  g_nome : string;
  g_description : string;
  g_image : string;
  g_userId : Id;
  g_status : string;
  g_updatedAt : Date;
  g_updatedBy : option string
}.

(** Modelled from the spec: the User schema (src/user/schemas/user.schemas.ts
    is not part of the sources); only the three fields the service reads. *)
Record UserDoc := mkUser {
  u_id : Id;
  u_nome : string;
  u_picture : string
}.

(** Modelled from the spec: [CreateGameDto] (src/games/dto/create-game.dto.ts
    is not part of the sources).  A field that is absent or [undefined] in
    the JavaScript object is [None]; [Partial<CreateGameDto>] is the same
    record. *)
Record CreateGameDto := mkDto {
  nome : option string;
  description : option string;
  image : option string;
  userId : option string;
  status : option string;
  updatedBy : option string
}.

(** [createGameDto[field]] *)
Definition dto_get (field : string) (dto : CreateGameDto) : option string :=
  if decide (field = "nome") then nome dto
  else if decide (field = "description") then description dto
  else if decide (field = "image") then image dto
  else if decide (field = "userId") then userId dto
  else if decide (field = "status") then status dto
  else if decide (field = "updatedBy") then updatedBy dto
  else None.

(** JavaScript truthiness of a possibly absent string: [undefined] and the
    empty string are falsy. *)
Definition truthy (v : option string) : bool :=
  match v with
  | Some (String _ _) => true
  | _ => false
  end.

(** [String(v)] for a possibly absent string. *)
Definition js_String (v : option string) : string :=
  match v with
  | Some s => s
  | None => "undefined"
  end.

(** A plain object returned by a [lean()] query with a projection: [_id] is
    always there, every other field only when the projection lists it. *)
Record LeanGame := mkLean {
  l_id : Id;
  l_nome : option string;
  l_description : option string;
  l_image : option string;
  l_userId : option Id;
  l_status : option string;
  l_updatedAt : option Date;
  l_updatedBy : option string
}.

(** The [user] property attached by the two enrichment queries. *)
Inductive UserRef :=
| UserSummary (id : Id) (name : string) (picture : string)
| Unknown.

(** [{ ...game, user }] *)
Record FormattedGame := mkFormatted {
  fg_game : LeanGame;
  fg_user : UserRef
}.

(** ** Exceptions, log and world *)

Inductive Exception :=
| NotFoundException (message : string)
| BadRequestException (message : string)
| TypeError (message : string)
| DriverError (message : string).

Definition message (e : Exception) : string :=
  match e with
  | NotFoundException m | BadRequestException m | TypeError m | DriverError m => m
  end.

Inductive Level := LOG | WARN | ERROR.

Record World := mkWorld {
  games : list GameDoc;           (* the games collection, in natural order *)
  users : list UserDoc;           (* the users collection *)
  clock : Date;                   (* what [new Date()] reads *)
  defaultStatus : string;         (* the schema default of [status] *)
  faults : list (option string);  (* one entry per driver call still to come:
                                     [Some m] makes that call throw *)
  logged : list (Level * string)  (* logger output, oldest first *)
}.

Definition set_games (gs : list GameDoc) (w : World) : World :=
  mkWorld gs (users w) (clock w) (defaultStatus w) (faults w) (logged w).

Definition set_faults (fs : list (option string)) (w : World) : World :=
  mkWorld (games w) (users w) (clock w) (defaultStatus w) fs (logged w).

Definition add_log (e : Level * string) (w : World) : World :=
  mkWorld (games w) (users w) (clock w) (defaultStatus w) (faults w)
          (logged w ++ [e]).

(** ** The monad of service methods *)

Inductive Result (A : Type) :=
| Ok (a : A)
| Err (e : Exception).
Arguments Ok {A} a.
Arguments Err {A} e.

Definition M (A : Type) : Type := World → Result A * World.

Definition ret {A} (a : A) : M A := λ w, (Ok a, w).

Definition bind {A B} (m : M A) (k : A → M B) : M B := λ w,
  match m w with
  | (Ok a, w') => k a w'
  | (Err e, w') => (Err e, w')
  end.

Definition throw {A} (e : Exception) : M A := λ w, (Err e, w).

(** [try { m } catch (error) { handler error }] *)
Definition try_catch {A} (m : M A) (handler : Exception → M A) : M A := λ w,
  match m w with
  | (Ok a, w') => (Ok a, w')
  | (Err e, w') => handler e w'
  end.

Declare Scope svc_scope.
Delimit Scope svc_scope with svc.
Notation "'let*' x := m 'in' k" := (bind m (λ x, k))
  (at level 10, x name, m at level 100, k at level 200) : svc_scope.
Notation "m >> k" := (bind m (λ _, k))
  (at level 100, k at level 200, right associativity) : svc_scope.
Local Open Scope svc_scope.

Definition logger_log (msg : string) : M unit := λ w, (Ok tt, add_log (LOG, msg) w).
Definition logger_warn (msg : string) : M unit := λ w, (Ok tt, add_log (WARN, msg) w).
(** The stack trace passed as second argument in one place is not modelled. *)
Definition logger_error (msg : string) : M unit := λ w, (Ok tt, add_log (ERROR, msg) w).

(** [new Date()] *)
Definition new_Date : M Date := λ w, (Ok (clock w), w).

(** ** The Mongoose model API, as far as the service calls it

    Every [exec()] is one call to the driver.  It consumes one entry of the
    fault script and throws when that entry says so; a schema validator
    rejecting a document, a cast error on a malformed id and a lost
    connection are all failures of this kind.  A call that throws is taken
    to have had no effect on the collections.  With an empty script the
    store is healthy. *)

Definition exec {A} (query : M A) : M A := λ w,
  match faults w with
  | Some m :: rest => (Err (DriverError m), set_faults rest w)
  | None :: rest => query (set_faults rest w)
  | [] => query w
  end.

(** The filter objects the service builds: [{}], [{ userId }] and
    [{ userId, status }]. *)
Record Filter := mkFilter {
  f_userId : option Id;
  f_status : option string
}.

Definition Matches (f : Filter) (g : GameDoc) : Prop :=
  from_option (λ u, g_userId g = u) True (f_userId f) ∧
  from_option (λ s, g_status g = s) True (f_status f).

#[global] Instance Matches_dec f g : Decision (Matches f g).
Proof. unfold Matches. destruct (f_userId f), (f_status f); simpl; apply _. Defined.

(** [sort({ updatedAt: -1 })] *)
Definition newer_first : relation GameDoc := λ a b, g_updatedAt b ≤ g_updatedAt a.

#[global] Instance newer_first_dec a b : Decision (newer_first a b).
Proof. unfold newer_first. apply _. Defined.

(** An inclusion projection [{ f1: 1, ..., fn: 1 }], given by its keys. *)
Definition selects (projection : list string) (field : string) : bool :=
  bool_decide (field ∈ projection).

Definition lean (projection : list string) (g : GameDoc) : LeanGame :=
  {| l_id := g_id g;
     l_nome := if selects projection "nome" then Some (g_nome g) else None;
     l_description :=
       if selects projection "description" then Some (g_description g) else None;
     l_image := if selects projection "image" then Some (g_image g) else None;
     l_userId := if selects projection "userId" then Some (g_userId g) else None;
     l_status := if selects projection "status" then Some (g_status g) else None;
     l_updatedAt :=
       if selects projection "updatedAt" then Some (g_updatedAt g) else None;
     l_updatedBy := if selects projection "updatedBy" then g_updatedBy g else None |}.

(** [gameModel.find(filter).exec()] *)
Definition gameModel_find (f : Filter) : M (list GameDoc) :=
  exec (λ w, (Ok (filter (Matches f) (games w)), w)).

(** [gameModel.find(filter, projection).sort({ updatedAt: -1 }).limit(n).lean().exec()] *)
Definition gameModel_find_recent (f : Filter) (projection : list string) (n : nat)
  : M (list LeanGame) :=
  exec (λ w,
    (Ok (lean projection <$>
           take n (merge_sort newer_first (filter (Matches f) (games w)))), w)).

(** [userModel.find({ _id: { $in: ids } }).lean().exec()]; an [undefined]
    among the ids matches no document. *)
Definition userModel_find_in (ids : list (option Id)) : M (list UserDoc) :=
  exec (λ w, (Ok (filter (λ u, Some (u_id u) ∈ ids) (users w)), w)).

Definition has_id (id : Id) (g : GameDoc) : bool := bool_decide (g_id g = id).

(** [gameModel.findById(id).exec()]; [None] is JavaScript's [null]. *)
Definition gameModel_findById (id : Id) : M (option GameDoc) :=
  exec (λ w, (Ok (List.find (has_id id) (games w)), w)).

(** The pipeline [[{ $match: { userId } },
    { $group: { _id: '$status', count: { $sum: 1 } } }]]: one group per
    status among the matched documents, with the number of its members. *)
Fixpoint group_add (key : string) (groups : list (string * nat)) : list (string * nat) :=
  match groups with
  | [] => [(key, 1%nat)]
  | (k, n) :: rest =>
      if decide (k = key) then (k, S n) :: rest else (k, n) :: group_add key rest
  end.

Definition group_count (keys : list string) : list (string * nat) :=
  foldl (λ groups key, group_add key groups) [] keys.

Definition gameModel_aggregate_status (userId : Id) : M (list (string * nat)) :=
  exec (λ w,
    (Ok (group_count
           (g_status <$> filter (Matches (mkFilter (Some userId) None)) (games w))), w)).

(** [new this.gameModel(dto)]: the driver picks the id [oid]; the schema
    default fills in a missing status.  [create] has checked the four
    required fields before it gets here. *)
Definition gameModel_new (oid : Id) (dto : CreateGameDto) : M GameDoc := λ w,
  (Ok {| g_id := oid;
         g_nome := default "" (nome dto);
         g_description := default "" (description dto);
         g_image := default "" (image dto);
         g_userId := default "" (userId dto);
         g_status := default (defaultStatus w) (status dto);
         g_updatedAt := clock w;
         g_updatedBy := updatedBy dto |}, w).

Definition stamp (now : Date) (g : GameDoc) : GameDoc :=
  mkGame (g_id g) (g_nome g) (g_description g) (g_image g) (g_userId g)
         (g_status g) now (g_updatedBy g).

(** [doc.save()]: inserts the document with its timestamp; the unique index
    on [_id] refuses an id that is taken. *)
Definition gameModel_save (doc : GameDoc) : M GameDoc :=
  exec (λ w,
    if bool_decide (g_id doc ∈ g_id <$> games w)
    then (Err (DriverError "E11000 duplicate key error"), w)
    else let saved := stamp (clock w) doc in
         (Ok saved, set_games (games w ++ [saved]) w)).

(** The update object [{ ...updateGameDto, updatedAt }]: the keys that are
    present are set, the others keep their value. *)
Definition apply_update (dto : CreateGameDto) (updatedAt : Date) (g : GameDoc) : GameDoc :=
  {| g_id := g_id g;
     g_nome := default (g_nome g) (nome dto);
     g_description := default (g_description g) (description dto);
     g_image := default (g_image g) (image dto);
     g_userId := default (g_userId g) (userId dto);
     g_status := default (g_status g) (status dto);
     g_updatedAt := updatedAt;
     g_updatedBy := match updatedBy dto with Some b => Some b | None => g_updatedBy g end |}.

Fixpoint replace_id (id : Id) (f : GameDoc → GameDoc) (gs : list GameDoc) : list GameDoc :=
  match gs with
  | [] => []
  | g :: rest => if has_id id g then f g :: rest else g :: replace_id id f rest
  end.

Fixpoint delete_id (id : Id) (gs : list GameDoc) : list GameDoc :=
  match gs with
  | [] => []
  | g :: rest => if has_id id g then rest else g :: delete_id id rest
  end.

(** [gameModel.findByIdAndUpdate(id, update, { new: true }).exec()]: returns
    the document after the update, [null] when there is none. *)
Definition gameModel_findByIdAndUpdate (id : Id) (dto : CreateGameDto) (updatedAt : Date)
  : M (option GameDoc) :=
  exec (λ w,
    (Ok (apply_update dto updatedAt <$> List.find (has_id id) (games w)),
     set_games (replace_id id (apply_update dto updatedAt) (games w)) w)).

(** [gameModel.findByIdAndDelete(id).exec()]: returns the document as it was,
    [null] when there is none. *)
Definition gameModel_findByIdAndDelete (id : Id) : M (option GameDoc) :=
  exec (λ w,
    (Ok (List.find (has_id id) (games w)), set_games (delete_id id (games w)) w)).

(** ** The service *)

(** [acc[key] = value] on a plain object with a number as value.  The key
    ["__proto__"] is the accessor that [Object.prototype] provides; its
    setter ignores a number, so the assignment creates no property and the
    object stays as it was.  Every other key becomes an own property. *)
Definition js_assign (key : string) (value : nat) (acc : gmap string nat)
  : gmap string nat :=
  if decide (key = "__proto__") then acc else <[key := value]> acc.

Module GameService.

Definition findAll : M (list GameDoc) :=
  logger_log "Fetching all games" >>
  let* games := gameModel_find (mkFilter None None) in
  logger_log ("Found " +:+ pretty (length games) +:+ " games") >>
  ret games.

Definition findByUser (userId : Id) (status : option string) : M (list GameDoc) :=
  logger_log ("Fetching games for user: " +:+ userId) >>
  let filter := mkFilter (Some userId) None in
  let filter := if truthy status then mkFilter (f_userId filter) status else filter in
  let* games := gameModel_find filter in
  logger_log ("Found " +:+ pretty (length games) +:+ " games for user: " +:+ userId) >>
  ret games.

Definition findById (id : Id) : M GameDoc :=
  logger_log ("Fetching game with id: " +:+ id) >>
  let* game := gameModel_findById id in
  match game with
  | None =>
      logger_error ("Game with id: " +:+ id +:+ " not found") >>
      throw (NotFoundException ("Game with id: " +:+ id +:+ " not found"))
  | Some game =>
      logger_log ("Found game with id: " +:+ g_id game) >>
      ret game
  end.

(** The callback of [games.map] in both enrichment queries (the source has
    the same text twice). *)
Definition attach_user (users : list UserDoc) (game : LeanGame) : FormattedGame :=
  let user :=
    List.find (λ user, bool_decide (js_String (Some (u_id user)) = js_String (l_userId game)))
              users in
  {| fg_game := game;
     fg_user := match user with
                | Some user => UserSummary (u_id user) (u_nome user) (u_picture user)
                | None => Unknown
                end |}.

Definition getLastGamesUpdated : M (list FormattedGame) :=
  try_catch
    (logger_log "Fetching last games updated" >>
     let* games :=
       gameModel_find_recent (mkFilter None None)
         ["_id"; "nome"; "updatedAt"; "updatedBy"; "userId"; "image"] 5 in
     match games with
     | [] => logger_warn "No games found" >> ret []
     | _ =>
         let userIds := l_userId <$> games in
         let* users := userModel_find_in userIds in
         let formattedGames := attach_user users <$> games in
         logger_log ("Found " +:+ pretty (length games) +:+ " games") >>
         ret formattedGames
     end)
    (λ error,
       logger_error ("Error fetching games: " +:+ message error) >>
       throw (BadRequestException "Error fetching games. Please try again later.")).

Definition getGameDistributionByUser (userId : Id) : M (gmap string nat) :=
  logger_log ("Fetching game distribution for user: " +:+ userId) >>
  let* games := gameModel_aggregate_status userId in
  let distribution :=
    foldl (λ (acc : gmap string nat) (game : string * nat), js_assign game.1 game.2 acc)
          ∅ games in
  logger_log ("Found game distribution for user: " +:+ userId) >>
  ret distribution.

Definition getLastGamesUpdatedByUser (userId : Id) : M (list FormattedGame) :=
  logger_log ("Fetching last games updated for user: " +:+ userId) >>
  let* games :=
    gameModel_find_recent (mkFilter (Some userId) None)
      ["_id"; "nome"; "updatedAt"; "updatedBy"; "image"] 5 in
  match games with
  | [] => logger_warn "No games found" >> ret []
  | _ =>
      let userIds := l_userId <$> games in
      let* users := userModel_find_in userIds in
      let formattedGames := attach_user users <$> games in
      logger_log ("Found " +:+ pretty (length games) +:+ " games for user: " +:+ userId) >>
      ret formattedGames
  end.

(** The two constant arrays are local to [create] and [update] in the
    source ([validStatuses] is written out in both). *)
Definition requiredFields : list string := ["nome"; "description"; "image"; "userId"].
Definition validStatuses : list string := ["Pendente"; "Progresso"; "Pausado"; "Completo"].

(** [for (const field of requiredFields) { if (!dto[field]) ... throw }] *)
Fixpoint check_required (requiredFields : list string) (dto : CreateGameDto) : M unit :=
  match requiredFields with
  | [] => ret tt
  | field :: rest =>
      if truthy (dto_get field dto) then check_required rest dto
      else
        logger_error ("Missing required field: " +:+ field) >>
        throw (BadRequestException ("Missing required field: " +:+ field))
  end.

(** [oid] is the id the driver generates for the new document. *)
Definition create (oid : Id) (createGameDto : CreateGameDto) : M GameDoc :=
  logger_log "Creating a new game" >>
  check_required requiredFields createGameDto >>
  if truthy (status createGameDto)
     && negb (bool_decide (js_String (status createGameDto) ∈ validStatuses))
  then
    logger_error ("Invalid status: " +:+ js_String (status createGameDto)) >>
    throw (BadRequestException ("Invalid status: " +:+ js_String (status createGameDto)))
  else
    let* newGame := gameModel_new oid createGameDto in
    let* savedGame := gameModel_save newGame in
    logger_log ("Created game with id: " +:+ g_id savedGame) >>
    ret savedGame.

Definition update (id : Id) (updateGameDto : CreateGameDto) : M GameDoc :=
  logger_log ("Updating game with id: " +:+ id) >>
  if truthy (status updateGameDto)
     && negb (bool_decide (js_String (status updateGameDto) ∈ validStatuses))
  then
    logger_error ("Invalid status: " +:+ js_String (status updateGameDto)) >>
    throw (BadRequestException ("Invalid status: " +:+ js_String (status updateGameDto)))
  else
    let* now := new_Date in
    let* updatedGame := gameModel_findByIdAndUpdate id updateGameDto now in
    match updatedGame with
    | None =>
        logger_error ("Game with id: " +:+ id +:+ " not found") >>
        throw (BadRequestException ("Game with id: " +:+ id +:+ " not found"))
    | Some updatedGame =>
        logger_log ("Updated game with id: " +:+ g_id updatedGame) >>
        ret updatedGame
    end.

(** [removedGame._id]: reading a property of [null] throws. *)
Definition get_id (doc : option GameDoc) : M Id :=
  match doc with
  | Some g => ret (g_id g)
  | None => throw (TypeError "Cannot read properties of null (reading '_id')")
  end.

Definition remove (id : Id) : M (option GameDoc) :=
  logger_log ("Removing game with id: " +:+ id) >>
  let* removedGame := gameModel_findByIdAndDelete id in
  let* removed_id := get_id removedGame in
  logger_log ("Removed game with id: " +:+ removed_id) >>
  ret removedGame.

End GameService.

Import GameService.

(** ** A small store used in the examples below *)

Definition g_doom : GameDoc :=
  mkGame "g1" "Doom" "shooter" "doom.png" "u1" "Pendente" 10 None.
Definition g_zelda : GameDoc :=
  mkGame "g2" "Zelda" "adventure" "zelda.png" "u1" "Completo" 30 (Some "ana").
Definition g_tetris : GameDoc :=
  mkGame "g3" "Tetris" "puzzle" "tetris.png" "u2" "Pendente" 20 None.
Definition g_pong : GameDoc :=
  mkGame "g4" "Pong" "arcade" "pong.png" "u1" "Pendente" 40 None.
Definition u_ana : UserDoc := mkUser "u1" "Ana" "ana.png".

Definition sample_world : World :=
  mkWorld [g_doom; g_zelda; g_tetris; g_pong] [u_ana] 100 "Pendente" [] [].

(** A store in which one game of user u1 has the status ["__proto__"]. *)
Definition g_odd : GameDoc :=
  mkGame "g5" "Odd" "oddity" "odd.png" "u1" "__proto__" 50 None.
Definition odd_world : World :=
  mkWorld [g_doom; g_odd; g_zelda] [u_ana] 100 "Pendente" [] [].

Definition empty_dto : CreateGameDto := mkDto None None None None None None.

Definition new_game_dto (status : option string) : CreateGameDto :=
  mkDto (Some "Celeste") (Some "platformer") (Some "celeste.png") (Some "u1") status None.

(** The store is healthy when no driver call is scripted to fail. *)
Definition healthy (w : World) : Prop := faults w = [].

(** No game of the collection has this id. *)
Definition absent (id : Id) (w : World) : Prop := ∀ g, g ∈ games w → g_id g ≠ id.

(** ** Vocabulary of the statements *)

(** All four required fields of the input are truthy. *)
Definition required_ok (dto : CreateGameDto) : Prop :=
  ∀ field, field ∈ requiredFields → truthy (dto_get field dto) = true.

(** The first required field, in the order of the loop, that is falsy. *)
Definition missing_field (fields : list string) (dto : CreateGameDto) : option string :=
  List.find (λ field, negb (truthy (dto_get field dto))) fields.

(** The status check of [create] and [update], as a condition on the input. *)
Definition status_rejected (dto : CreateGameDto) : bool :=
  truthy (status dto) && negb (bool_decide (js_String (status dto) ∈ validStatuses)).

(** The count a list of groups holds for a key. *)
Fixpoint assoc (k : string) (groups : list (string * nat)) : option nat :=
  match groups with
  | [] => None
  | (k', n) :: rest => if decide (k' = k) then Some n else assoc k rest
  end.

(** How often a key occurs. *)
Definition occurrences (k : string) (keys : list string) : nat :=
  length (filter (λ k', k' = k) keys).

(** The page of at most [n] most recently updated games of a list. *)
Definition recent (n : nat) (gs : list GameDoc) : list GameDoc :=
  take n (merge_sort newer_first gs).

(** Descending order of [updatedAt] on the objects the queries return. *)
Definition newer_first_out : relation FormattedGame := λ a b,
  ∃ ta tb, l_updatedAt (fg_game a) = Some ta ∧ l_updatedAt (fg_game b) = Some tb ∧ tb ≤ ta.

(** The [user] property is right with respect to a users collection: a
    summary of the user whose id is the game's [userId], or [Unknown] when
    no user has that id. *)
Definition user_attached (us : list UserDoc) (fg : FormattedGame) : Prop :=
  match fg_user fg with
  | UserSummary id name picture =>
      ∃ u, u ∈ us ∧ l_userId (fg_game fg) = Some (u_id u) ∧
           id = u_id u ∧ name = u_nome u ∧ picture = u_picture u
  | Unknown => ∀ u, u ∈ us → l_userId (fg_game fg) ≠ Some (u_id u)
  end.

(** Ids are unique in the games collection. *)
Definition unique_ids (w : World) : Prop := NoDup (g_id <$> games w).

(** Every stored status is one of the four values, the empty string or the
    schema default. *)
Definition statuses_admitted (w : World) : Prop :=
  ∀ g, g ∈ games w →
    g_status g ∈ validStatuses ∨ g_status g = "" ∨ g_status g = defaultStatus w.

(** Two worlds that differ at most in the log. *)
Definition same_but_log (w w' : World) : Prop :=
  games w' = games w ∧ users w' = users w ∧ clock w' = clock w ∧
  defaultStatus w' = defaultStatus w ∧ faults w' = faults w.

(** ** Running the monad *)

Lemma exec_healthy {A} (query : M A) w : healthy w → exec query w = query w.
Proof. unfold healthy, exec. by intros ->. Qed.

Ltac run :=
  unfold bind, ret, throw, try_catch, get_id,
    logger_log, logger_warn, logger_error, new_Date;
  simpl.

Ltac run_healthy H :=
  run; rewrite exec_healthy by exact H; simpl.

(** ** Lists of documents *)

Lemma filter_Matches_all (gs : list GameDoc) :
  filter (Matches (mkFilter None None)) gs = gs.
Proof.
  induction gs as [|g gs IH]; [done|].
  rewrite filter_cons_True; [by rewrite IH | by split].
Qed.

Lemma filter_none {A} (P : A → Prop) `{∀ x, Decision (P x)} (l : list A) :
  (∀ x, x ∈ l → ¬ P x) → filter P l = [].
Proof.
  induction l as [|x l IH]; intros Hl; [done|].
  rewrite filter_cons_False by (apply Hl; left).
  apply IH. intros y Hy. apply Hl. by right.
Qed.

Lemma find_has_id_absent id (gs : list GameDoc) :
  (∀ g, g ∈ gs → g_id g ≠ id) → List.find (has_id id) gs = None.
Proof.
  induction gs as [|g gs IH]; intros Hgs; [done|]. simpl.
  unfold has_id at 1. rewrite bool_decide_eq_false_2 by (apply Hgs; left).
  apply IH. intros g' Hg'. apply Hgs. by right.
Qed.

Lemma find_has_id_Some id (gs : list GameDoc) g :
  List.find (has_id id) gs = Some g → g ∈ gs ∧ g_id g = id.
Proof.
  induction gs as [|g' gs IH]; [done|]. simpl. unfold has_id at 1.
  case_bool_decide as Hid.
  - intros [= <-]. split; [left | done].
  - intros Hf. destruct (IH Hf). split; [by right | done].
Qed.

(** ** findByUser *)

(** C9, as the code has it: with a non-empty status [findByUser] returns
    exactly the games of that user with that status; with no status, or with
    the empty string, it returns all games of that user; it returns the empty
    list when the user has no game, and leaves the collection as it was. *)
Theorem findByUser_exact (w : World) (uid : Id) (st : option string) :
  healthy w →
  ∃ r w', findByUser uid st w = (Ok r, w') ∧ games w' = games w ∧
    (∀ s, st = Some s → s ≠ "" →
       r = filter (λ g, g_userId g = uid ∧ g_status g = s) (games w)) ∧
    (truthy st = false → r = filter (λ g, g_userId g = uid) (games w)) ∧
    ((∀ g, g ∈ games w → g_userId g ≠ uid) → r = []).
Proof.
  intros Hw. unfold findByUser, gameModel_find. run_healthy Hw.
  eexists _, _. split; [reflexivity|]. split; [done|].
  split; [|split].
  - intros s -> Hs. destruct s; [done|]. simpl.
    apply list_filter_iff. intros g. unfold Matches. simpl. tauto.
  - intros ->. apply list_filter_iff. intros g. unfold Matches. simpl. tauto.
  - intros Hno. apply filter_none. intros g Hg [Hu _].
    destruct (truthy st); simpl in Hu; by apply (Hno g).
Qed.

Lemma findByUser_exact_witness :
  ∃ r w', findByUser "u1" (Some "Pendente") sample_world = (Ok r, w') ∧
    games w' = games sample_world ∧
    (∀ s, Some "Pendente" = Some s → s ≠ "" →
       r = filter (λ g, g_userId g = "u1" ∧ g_status g = s) (games sample_world)) ∧
    (truthy (Some "Pendente") = false →
       r = filter (λ g, g_userId g = "u1") (games sample_world)) ∧
    ((∀ g, g ∈ games sample_world → g_userId g ≠ "u1") → r = []).
Proof. apply (findByUser_exact sample_world "u1" (Some "Pendente")). reflexivity. Defined.

(** C9, as the spec states it, fails for the empty status: the user's games
    come back although none of them has the empty string as status. *)
Lemma findByUser_empty_status_not_exact :
  fst (findByUser "u1" (Some "") sample_world)
  ≠ Ok (filter (λ g, g_userId g = "u1" ∧ g_status g = "") (games sample_world)).
Proof. vm_compute. discriminate. Qed.

(** ** Updating and deleting by id *)

Lemma apply_update_id dto now g : g_id (apply_update dto now g) = g_id g.
Proof. done. Qed.

Lemma has_id_eq id (g : GameDoc) : g_id g = id → has_id id g = true.
Proof. intros. by apply bool_decide_eq_true_2. Qed.

Lemma has_id_ne id (g : GameDoc) : g_id g ≠ id → has_id id g = false.
Proof. intros. by apply bool_decide_eq_false_2. Qed.

Lemma find_replace_id id id' f (gs : list GameDoc) :
  (∀ g, g_id (f g) = g_id g) →
  List.find (has_id id') (replace_id id f gs)
  = if decide (id' = id) then f <$> List.find (has_id id) gs
    else List.find (has_id id') gs.
Proof.
  intros Hf. induction gs as [|g gs IH]; simpl.
  - by case_decide.
  - destruct (decide (g_id g = id)) as [Hg|Hg].
    + rewrite (has_id_eq id g Hg). simpl. destruct (decide (id' = id)) as [Hid|Hid].
      * subst id'. rewrite has_id_eq; [done | by rewrite Hf].
      * rewrite !has_id_ne; [done | congruence | rewrite Hf; congruence].
    + rewrite (has_id_ne id g Hg). simpl. destruct (decide (id' = id)) as [Hid|Hid].
      * subst id'. rewrite (has_id_ne id g Hg). by rewrite IH.
      * destruct (has_id id' g); [done|]. by rewrite IH.
Qed.

Lemma length_replace_id id f (gs : list GameDoc) :
  length (replace_id id f gs) = length gs.
Proof.
  induction gs as [|g gs IH]; [done|]. simpl.
  destruct (has_id id g); simpl; by rewrite ?IH.
Qed.

Lemma delete_id_absent id (gs : list GameDoc) :
  (∀ g, g ∈ gs → g_id g ≠ id) → delete_id id gs = gs.
Proof.
  induction gs as [|g gs IH]; intros Hgs; [done|]. simpl.
  unfold has_id at 1. rewrite bool_decide_eq_false_2 by (apply Hgs; left).
  f_equal. apply IH. intros g' Hg'. apply Hgs. by right.
Qed.

Lemma delete_id_subseteq id (gs : list GameDoc) g :
  g ∈ delete_id id gs → g ∈ gs.
Proof.
  induction gs as [|g' gs IH]; [done|]. simpl.
  destruct (has_id id g'); [by right|].
  intros [->|Hg]%elem_of_cons; [left | right; auto].
Qed.

(** Ids are unique in a collection (the store's index on [_id]); once the
    document with an id is deleted, no document has it. *)
Lemma delete_id_gone id (gs : list GameDoc) :
  NoDup (g_id <$> gs) → ∀ g, g ∈ delete_id id gs → g_id g ≠ id.
Proof.
  induction gs as [|g' gs IH]; intros Hnd g; [by intros ?%elem_of_nil|].
  simpl in *. apply NoDup_cons in Hnd as [Hnotin Hnd].
  unfold has_id at 1. case_bool_decide as Hid.
  - intros Hg Heq. apply Hnotin. rewrite Hid, <- Heq.
    apply list_elem_of_fmap. by exists g.
  - intros [->|Hg]%elem_of_cons; [done | by apply IH].
Qed.

Lemma g9_absent : absent "g9" sample_world.
Proof.
  intros g Hg. vm_compute in Hg.
  repeat (apply elem_of_cons in Hg as [->|Hg]; [intros [=]|]).
  by apply elem_of_nil in Hg.
Qed.

(** C1: when a game with the id exists, [remove] deletes it and returns it
    as it was; when none exists, [remove] throws a [TypeError] (the log line
    after the deletion reads [removedGame._id] of [null]) and the collection
    keeps its documents. *)
Theorem remove_outcome (w : World) (id : Id) :
  healthy w →
  (∀ g, List.find (has_id id) (games w) = Some g →
     fst (remove id w) = Ok (Some g) ∧
     games (snd (remove id w)) = delete_id id (games w)) ∧
  (absent id w →
     fst (remove id w) = Err (TypeError "Cannot read properties of null (reading '_id')") ∧
     games (snd (remove id w)) = games w).
Proof.
  intros Hw. unfold remove, gameModel_findByIdAndDelete, absent. split.
  - intros g Hg. run_healthy Hw. by rewrite Hg.
  - intros Habs. run_healthy Hw. rewrite find_has_id_absent by done. simpl.
    split; [done|]. by apply delete_id_absent.
Qed.

Lemma remove_outcome_witness :
  fst (remove "g9" sample_world)
    = Err (TypeError "Cannot read properties of null (reading '_id')") ∧
  games (snd (remove "g9" sample_world)) = games sample_world.
Proof. apply (remove_outcome sample_world "g9"); [reflexivity | apply g9_absent]. Defined.

(** After a successful [remove] of an id, [findById] of that id fails with
    NotFound, provided ids are unique in the collection. *)
Lemma remove_then_findById (w : World) (id : Id) g :
  healthy w → NoDup (g_id <$> games w) →
  List.find (has_id id) (games w) = Some g →
  fst (findById id (snd (remove id w)))
  = Err (NotFoundException ("Game with id: " +:+ id +:+ " not found")).
Proof.
  intros Hw Hnd Hg. unfold remove, gameModel_findByIdAndDelete.
  run_healthy Hw. rewrite Hg. simpl.
  unfold findById, gameModel_findById. run. rewrite exec_healthy by exact Hw. simpl.
  rewrite find_has_id_absent; [done|]. by apply delete_id_gone.
Qed.

(** C5: on an id that no game has, [update] fails with a
    [BadRequestException] (the not-found message, unless the status check
    has already rejected the input), while [findById] fails with a
    [NotFoundException]. *)
Theorem update_missing_BadRequest_findById_NotFound (w : World) (id : Id)
    (dto : CreateGameDto) :
  healthy w → absent id w →
  (∃ m, fst (update id dto w) = Err (BadRequestException m)) ∧
  ((∀ s, status dto = Some s → s ∈ validStatuses) →
     fst (update id dto w)
     = Err (BadRequestException ("Game with id: " +:+ id +:+ " not found"))) ∧
  fst (findById id w) = Err (NotFoundException ("Game with id: " +:+ id +:+ " not found")).
Proof.
  intros Hw Habs.
  assert (Hnf : ∀ v, truthy (status dto) && negb (bool_decide (js_String (status dto) ∈ validStatuses)) = v →
     v = false →
     fst (update id dto w)
     = Err (BadRequestException ("Game with id: " +:+ id +:+ " not found"))).
  { intros v Hv ->. unfold update, gameModel_findByIdAndUpdate. run. rewrite Hv.
    run_healthy Hw. by rewrite find_has_id_absent. }
  split; [|split].
  - destruct (truthy (status dto) && negb (bool_decide (js_String (status dto) ∈ validStatuses))) eqn:Hv.
    + eexists. unfold update. run. rewrite Hv. reflexivity.
    + eexists. by eapply Hnf.
  - intros Hst. eapply Hnf; [reflexivity|].
    destruct (status dto) as [s|]; [|done]. simpl.
    rewrite bool_decide_eq_true_2 by auto. simpl. apply andb_false_r.
  - unfold findById, gameModel_findById. run_healthy Hw.
    by rewrite find_has_id_absent.
Qed.

Lemma update_missing_BadRequest_findById_NotFound_witness :
  (∃ m, fst (update "g9" empty_dto sample_world) = Err (BadRequestException m)) ∧
  ((∀ s, status empty_dto = Some s → s ∈ validStatuses) →
     fst (update "g9" empty_dto sample_world)
     = Err (BadRequestException ("Game with id: " +:+ "g9" +:+ " not found"))) ∧
  fst (findById "g9" sample_world)
  = Err (NotFoundException ("Game with id: " +:+ "g9" +:+ " not found")).
Proof.
  apply (update_missing_BadRequest_findById_NotFound sample_world "g9" empty_dto);
    [reflexivity | apply g9_absent].
Defined.

(** The status check lets through an input whose status, if any, is valid. *)
Lemma status_check_passes (dto : CreateGameDto) :
  (∀ s, status dto = Some s → s ∈ validStatuses) →
  truthy (status dto) && negb (bool_decide (js_String (status dto) ∈ validStatuses))
  = false.
Proof.
  intros Hst. destruct (status dto) as [s|]; [|done]. simpl.
  rewrite bool_decide_eq_true_2 by auto. apply andb_false_r.
Qed.

(** C7: on an existing id and a partial input whose status, if supplied, is
    valid, [update] returns the record with exactly the supplied fields
    replaced and [updatedAt] set to the current time, stores it in place of
    the old one and leaves the other records alone; with the empty partial
    input only [updatedAt] changes. *)
Theorem update_applies_partial (w : World) (id : Id) (dto : CreateGameDto) (g : GameDoc) :
  healthy w →
  List.find (has_id id) (games w) = Some g →
  (∀ s, status dto = Some s → s ∈ validStatuses) →
  ∃ g' w', update id dto w = (Ok g', w') ∧
    g_id g' = g_id g ∧
    g_nome g' = default (g_nome g) (nome dto) ∧
    g_description g' = default (g_description g) (description dto) ∧
    g_image g' = default (g_image g) (image dto) ∧
    g_userId g' = default (g_userId g) (userId dto) ∧
    g_status g' = default (g_status g) (status dto) ∧
    g_updatedBy g' = (if updatedBy dto is Some b then Some b else g_updatedBy g) ∧
    g_updatedAt g' = clock w ∧
    List.find (has_id id) (games w') = Some g' ∧
    (∀ id', id' ≠ id → List.find (has_id id') (games w') = List.find (has_id id') (games w)) ∧
    length (games w') = length (games w) ∧
    (dto = empty_dto → g' = stamp (clock w) g).
Proof.
  intros Hw Hg Hst. unfold update, gameModel_findByIdAndUpdate. run.
  rewrite (status_check_passes dto Hst). run_healthy Hw. rewrite Hg. simpl.
  eexists _, _. split; [reflexivity|]. simpl.
  repeat (split; [reflexivity|]).
  split; [|split; [|split]].
  - rewrite find_replace_id by apply apply_update_id.
    rewrite decide_True by done. by rewrite Hg.
  - intros id' Hid'. rewrite find_replace_id by apply apply_update_id.
    by rewrite decide_False.
  - apply length_replace_id.
  - intros ->. by destruct g.
Qed.

Lemma update_applies_partial_witness :
  ∃ g' w', update "g1" empty_dto sample_world = (Ok g', w') ∧
    g_id g' = g_id g_doom ∧
    g_nome g' = default (g_nome g_doom) (nome empty_dto) ∧
    g_description g' = default (g_description g_doom) (description empty_dto) ∧
    g_image g' = default (g_image g_doom) (image empty_dto) ∧
    g_userId g' = default (g_userId g_doom) (userId empty_dto) ∧
    g_status g' = default (g_status g_doom) (status empty_dto) ∧
    g_updatedBy g' = (if updatedBy empty_dto is Some b then Some b else g_updatedBy g_doom) ∧
    g_updatedAt g' = clock sample_world ∧
    List.find (has_id "g1") (games w') = Some g' ∧
    (∀ id', id' ≠ "g1" →
       List.find (has_id id') (games w') = List.find (has_id id') (games sample_world)) ∧
    length (games w') = length (games sample_world) ∧
    (empty_dto = empty_dto → g' = stamp (clock sample_world) g_doom).
Proof.
  apply (update_applies_partial sample_world "g1" empty_dto g_doom);
    [reflexivity | reflexivity | intros s [=]].
Defined.

(** ** Validation in create and update *)

Lemma check_required_run fields dto w :
  check_required fields dto w
  = match missing_field fields dto with
    | Some field =>
        (Err (BadRequestException ("Missing required field: " +:+ field)),
         add_log (ERROR, "Missing required field: " +:+ field) w)
    | None => (Ok tt, w)
    end.
Proof.
  induction fields as [|f fields IH]; [done|].
  unfold missing_field in *. simpl. by destruct (truthy (dto_get f dto)).
Qed.

Lemma missing_field_None fields dto :
  missing_field fields dto = None ↔
  ∀ field, field ∈ fields → truthy (dto_get field dto) = true.
Proof.
  unfold missing_field. induction fields as [|f fields IH]; simpl.
  - split; [intros _ f Hf; by apply elem_of_nil in Hf | done].
  - destruct (truthy (dto_get f dto)) eqn:Hf; simpl.
    + rewrite IH. split.
      * intros H f' [->|Hf']%elem_of_cons; auto.
      * intros H f' Hf'. apply H. by right.
    + split; [done|]. intros H. specialize (H f). rewrite Hf in H.
      discriminate H. left.
Qed.

Lemma missing_field_Some fields dto field :
  missing_field fields dto = Some field →
  field ∈ fields ∧ truthy (dto_get field dto) = false.
Proof.
  unfold missing_field. induction fields as [|f fields IH]; simpl; [done|].
  destruct (truthy (dto_get f dto)) eqn:Hf; simpl.
  - intros [??]%IH. split; [by right | done].
  - intros [= <-]. split; [left | done].
Qed.

Lemma absent_not_elem oid w : absent oid w → oid ∉ g_id <$> games w.
Proof.
  intros Habs [g [-> Hg]]%list_elem_of_fmap. by apply (Habs g).
Qed.

Lemma truthy_Some_nonempty (v : option string) :
  truthy v = true ↔ ∃ s, v = Some s ∧ s ≠ "".
Proof.
  split.
  - destruct v as [[|a s]|]; [done | | done]. intros _. by eexists.
  - intros (s & -> & Hs). by destruct s.
Qed.

(** What [create] does once validation has passed. *)
Lemma create_persists (w : World) (oid : Id) (dto : CreateGameDto) :
  required_ok dto →
  truthy (status dto) && negb (bool_decide (js_String (status dto) ∈ validStatuses)) = false →
  healthy w → absent oid w →
  ∃ g w', create oid dto w = (Ok g, w') ∧
    games w' = (games w ++ [g])%list ∧
    g_id g = oid ∧
    Some (g_nome g) = nome dto ∧
    Some (g_description g) = description dto ∧
    Some (g_image g) = image dto ∧
    Some (g_userId g) = userId dto ∧
    g_status g = default (defaultStatus w) (status dto) ∧
    g_updatedBy g = updatedBy dto ∧
    g_updatedAt g = clock w.
Proof.
  intros Hreq Hst Hw Habs.
  assert (Hsome : ∀ f, f ∈ requiredFields → ∃ s, dto_get f dto = Some s).
  { intros f Hf. specialize (Hreq f Hf).
    apply truthy_Some_nonempty in Hreq as (s & -> & _). by eexists. }
  destruct (Hsome "nome") as [n Hn]; [set_solver|].
  destruct (Hsome "description") as [d Hd]; [set_solver|].
  destruct (Hsome "image") as [i Hi]; [set_solver|].
  destruct (Hsome "userId") as [u Hu]; [set_solver|].
  change (nome dto = Some n) in Hn. change (description dto = Some d) in Hd.
  change (image dto = Some i) in Hi. change (userId dto = Some u) in Hu.
  unfold create, bind, logger_log. cbv beta iota.
  rewrite check_required_run.
  rewrite (proj2 (missing_field_None requiredFields dto) Hreq).
  rewrite Hst. unfold gameModel_new, gameModel_save. run_healthy Hw.
  rewrite bool_decide_eq_false_2 by by apply absent_not_elem.
  eexists _, _. split; [reflexivity|]. simpl.
  rewrite Hn, Hd, Hi, Hu. simpl. done.
Qed.

Lemma status_rejected_true dto :
  status_rejected dto = true ↔ ∃ s, status dto = Some s ∧ s ≠ "" ∧ s ∉ validStatuses.
Proof.
  unfold status_rejected. rewrite andb_true_iff, negb_true_iff, truthy_Some_nonempty.
  rewrite bool_decide_eq_false. split.
  - intros [(s & Hs & Hne) Hin]. rewrite Hs in Hin. by exists s.
  - intros (s & Hs & Hne & Hin). rewrite Hs. split; [by exists s | done].
Qed.

(** Every way [create] can end, by the checks that decide it. *)
Lemma create_result_cases (w : World) (oid : Id) (dto : CreateGameDto) :
  match fst (create oid dto w) with
  | Err (BadRequestException m) =>
      (∃ field, missing_field requiredFields dto = Some field ∧
                m = "Missing required field: " +:+ field) ∨
      (missing_field requiredFields dto = None ∧ status_rejected dto = true ∧
       m = "Invalid status: " +:+ js_String (status dto))
  | Err (DriverError _) | Ok _ =>
      missing_field requiredFields dto = None ∧ status_rejected dto = false
  | Err _ => False
  end.
Proof.
  unfold create, bind, logger_log. cbv beta iota.
  rewrite check_required_run. fold (status_rejected dto).
  destruct (missing_field requiredFields dto) as [field|]; [left; by exists field|].
  destruct (status_rejected dto); [simpl; by right|].
  unfold gameModel_new, gameModel_save, exec. cbv beta iota.
  set (w1 := add_log _ w). destruct (faults w1) as [|[m|] rest]; simpl; [|done|].
  - by case_bool_decide.
  - by case_bool_decide.
Qed.

Lemma create_rejects_store_untouched (w : World) (oid : Id) (dto : CreateGameDto) m :
  fst (create oid dto w) = Err (BadRequestException m) →
  games (snd (create oid dto w)) = games w.
Proof.
  unfold create, bind, logger_log. cbv beta iota.
  rewrite check_required_run. fold (status_rejected dto).
  destruct (missing_field requiredFields dto) as [field|]; [done|].
  destruct (status_rejected dto); [done|].
  unfold gameModel_new, gameModel_save, exec. cbv beta iota.
  set (w1 := add_log _ w). destruct (faults w1) as [|[m'|] rest]; simpl; [|done|].
  - by case_bool_decide.
  - by case_bool_decide.
Qed.

(** Every way [update] can end. *)
Lemma update_result_cases (w : World) (id : Id) (dto : CreateGameDto) :
  match fst (update id dto w) with
  | Err (BadRequestException m) =>
      (status_rejected dto = true ∧ m = "Invalid status: " +:+ js_String (status dto)) ∨
      (status_rejected dto = false ∧ m = "Game with id: " +:+ id +:+ " not found")
  | Err (DriverError _) | Ok _ => status_rejected dto = false
  | Err _ => False
  end.
Proof.
  unfold update, bind, logger_log. cbv beta iota. fold (status_rejected dto).
  destruct (status_rejected dto); [simpl; by left|].
  unfold new_Date, gameModel_findByIdAndUpdate, exec. cbv beta iota.
  set (w1 := add_log _ w). destruct (faults w1) as [|[m|] rest]; simpl; [|done|].
  - destruct (List.find _ _); simpl; [done | by right].
  - destruct (List.find _ _); simpl; [done | by right].
Qed.

(** ** create *)

(** C4, as the code has it: [create] fails with a [BadRequestException]
    naming the first falsy field among nome, description, image and userId;
    with these four present, it fails with a [BadRequestException] quoting
    the status when a non-empty status is supplied that is not one of the
    four values; with the four present and the status absent or one of the
    four values, a healthy store and an unused id, it appends the new game
    to the collection and returns it. *)
Theorem create_validates_then_persists (w : World) (oid : Id) (dto : CreateGameDto) :
  ((∃ f, f ∈ requiredFields ∧ truthy (dto_get f dto) = false) →
     ∃ field, field ∈ requiredFields ∧ truthy (dto_get field dto) = false ∧
       missing_field requiredFields dto = Some field ∧
       fst (create oid dto w)
       = Err (BadRequestException ("Missing required field: " +:+ field)) ∧
       games (snd (create oid dto w)) = games w) ∧
  (required_ok dto →
     ∀ s, status dto = Some s → s ≠ "" → s ∉ validStatuses →
       fst (create oid dto w) = Err (BadRequestException ("Invalid status: " +:+ s)) ∧
       games (snd (create oid dto w)) = games w) ∧
  (required_ok dto →
     (∀ s, status dto = Some s → s ∈ validStatuses) →
     healthy w → absent oid w →
     ∃ g w', create oid dto w = (Ok g, w') ∧
       games w' = (games w ++ [g])%list ∧
       g_id g = oid ∧
       Some (g_nome g) = nome dto ∧
       Some (g_description g) = description dto ∧
       Some (g_image g) = image dto ∧
       Some (g_userId g) = userId dto ∧
       g_status g = default (defaultStatus w) (status dto) ∧
       g_updatedBy g = updatedBy dto ∧
       g_updatedAt g = clock w).
Proof.
  split; [|split].
  - intros (f & Hf & Hfalsy).
    destruct (missing_field requiredFields dto) as [field|] eqn:Hmiss.
    + destruct (missing_field_Some _ _ _ Hmiss) as [Hin Hfield].
      exists field. repeat (split; [done|]).
      assert (fst (create oid dto w)
              = Err (BadRequestException ("Missing required field: " +:+ field))) as Hres.
      { unfold create, bind, logger_log. cbv beta iota.
        rewrite check_required_run. by rewrite Hmiss. }
      split; [done|]. by eapply create_rejects_store_untouched.
    + rewrite missing_field_None in Hmiss. rewrite (Hmiss f Hf) in Hfalsy. done.
  - intros Hreq s Hs Hne Hin.
    assert (status_rejected dto = true) as Hrej.
    { apply status_rejected_true. by exists s. }
    assert (fst (create oid dto w) = Err (BadRequestException ("Invalid status: " +:+ s)))
      as Hres.
    { unfold create, bind, logger_log. cbv beta iota.
      rewrite check_required_run.
      rewrite (proj2 (missing_field_None requiredFields dto) Hreq).
      fold (status_rejected dto). rewrite Hrej. by rewrite Hs. }
    split; [done|]. by eapply create_rejects_store_untouched.
  - intros Hreq Hst Hw Habs.
    apply create_persists; [done | by apply status_check_passes | done | done].
Qed.

Lemma new_game_dto_required_ok st : required_ok (new_game_dto st).
Proof.
  intros f Hf. unfold requiredFields in Hf.
  repeat (apply elem_of_cons in Hf as [->|Hf]; [reflexivity|]).
  by apply elem_of_nil in Hf.
Qed.

Lemma create_validates_then_persists_witness :
  ∃ g w', create "g9" (new_game_dto (Some "Progresso")) sample_world = (Ok g, w') ∧
    games w' = (games sample_world ++ [g])%list ∧
    g_id g = "g9" ∧
    Some (g_nome g) = nome (new_game_dto (Some "Progresso")) ∧
    Some (g_description g) = description (new_game_dto (Some "Progresso")) ∧
    Some (g_image g) = image (new_game_dto (Some "Progresso")) ∧
    Some (g_userId g) = userId (new_game_dto (Some "Progresso")) ∧
    g_status g = default (defaultStatus sample_world) (status (new_game_dto (Some "Progresso"))) ∧
    g_updatedBy g = updatedBy (new_game_dto (Some "Progresso")) ∧
    g_updatedAt g = clock sample_world.
Proof.
  apply (create_validates_then_persists sample_world "g9" (new_game_dto (Some "Progresso")));
    [apply new_game_dto_required_ok | | reflexivity | apply g9_absent].
  intros s [= <-]. unfold validStatuses. set_solver.
Defined.

(** C4, as the spec states it, fails for the empty status: it is supplied,
    it is not one of the four values, and [create] does not fail. *)
Lemma create_empty_status_not_rejected :
  status (new_game_dto (Some "")) = Some "" ∧
  ("" ∉ validStatuses) ∧
  (∀ m, fst (create "g9" (new_game_dto (Some "")) sample_world)
        ≠ Err (BadRequestException m)).
Proof.
  split; [reflexivity|]. split.
  - unfold validStatuses. intros H.
    repeat (apply elem_of_cons in H as [[=]|H]). by apply elem_of_nil in H.
  - intros m. vm_compute. discriminate.
Qed.

(** ** The status check *)

(** C10: in [create] (once the required fields have passed) and in
    [update], the result is the invalid-status [BadRequestException] exactly
    when a non-empty status is supplied that is not one of the four values;
    with the empty string as status nothing is rejected, and a healthy store
    receives and keeps it as the status of the record. *)
Theorem status_check_truthy_and_invalid (w : World) (dto : CreateGameDto) :
  (∀ oid, (∃ m, fst (create oid dto w) = Err (BadRequestException ("Invalid status: " +:+ m)))
          ↔ required_ok dto ∧ ∃ s, status dto = Some s ∧ s ≠ "" ∧ s ∉ validStatuses) ∧
  (∀ id, (∃ m, fst (update id dto w) = Err (BadRequestException ("Invalid status: " +:+ m)))
         ↔ ∃ s, status dto = Some s ∧ s ≠ "" ∧ s ∉ validStatuses) ∧
  (∀ oid, status dto = Some "" → required_ok dto → healthy w → absent oid w →
     ∃ g w', create oid dto w = (Ok g, w') ∧ g_status g = "" ∧ g ∈ games w') ∧
  (∀ id g, status dto = Some "" → healthy w →
     List.find (has_id id) (games w) = Some g →
     ∃ g' w', update id dto w = (Ok g', w') ∧ g_status g' = "" ∧
       List.find (has_id id) (games w') = Some g').
Proof.
  split; [|split; [|split]].
  - intros oid. unfold required_ok.
    rewrite <- status_rejected_true, <- missing_field_None.
    pose proof (create_result_cases w oid dto) as Hc. split.
    + intros [m Hm]. rewrite Hm in Hc.
      destruct Hc as [(field & _ & [=]) | (? & ? & _)]; done.
    + intros [Hmiss Hrej]. exists (js_String (status dto)).
      unfold create, bind, logger_log. cbv beta iota.
      rewrite check_required_run, Hmiss. fold (status_rejected dto). by rewrite Hrej.
  - intros id. rewrite <- status_rejected_true.
    pose proof (update_result_cases w id dto) as Hc. split.
    + intros [m Hm]. rewrite Hm in Hc. destruct Hc as [[? _] | [_ [=]]]; done.
    + intros Hrej. exists (js_String (status dto)).
      unfold update, bind, logger_log. cbv beta iota.
      fold (status_rejected dto). by rewrite Hrej.
  - intros oid Hst Hreq Hw Habs.
    destruct (create_persists w oid dto Hreq) as (g & w' & Hrun & Hgames & _ & _ & _ & _ & _ & Hs & _);
      [by rewrite Hst | done | done |].
    exists g, w'. split; [done|]. rewrite Hst in Hs. split; [done|].
    rewrite Hgames. apply elem_of_app. right. left.
  - intros id g Hst Hw Hg.
    unfold update, gameModel_findByIdAndUpdate. run. rewrite Hst. run_healthy Hw.
    rewrite Hg. simpl. eexists _, _. split; [reflexivity|]. simpl.
    split; [by rewrite Hst|].
    rewrite find_replace_id by apply apply_update_id.
    rewrite decide_True by done. by rewrite Hg.
Qed.

Lemma status_check_truthy_and_invalid_witness :
  (∃ g w', create "g9" (new_game_dto (Some "")) sample_world = (Ok g, w') ∧
     g_status g = "" ∧ g ∈ games w') ∧
  (∃ g' w', update "g1" (new_game_dto (Some "")) sample_world = (Ok g', w') ∧
     g_status g' = "" ∧ List.find (has_id "g1") (games w') = Some g').
Proof.
  pose proof (status_check_truthy_and_invalid sample_world (new_game_dto (Some "")))
    as (_ & _ & Hcreate & Hupdate).
  split.
  - apply (Hcreate "g9");
      [reflexivity | apply new_game_dto_required_ok | reflexivity | apply g9_absent].
  - apply (Hupdate "g1" g_doom); reflexivity.
Defined.

(** ** Grouping by status *)

Section grouping.
Implicit Types (key k : string) (groups : list (string * nat)) (keys : list string).

Lemma assoc_group_add k key groups :
  assoc k (group_add key groups)
  = if decide (k = key) then Some (S (default 0%nat (assoc key groups)))
    else assoc k groups.
Proof.
  induction groups as [|[k' n] groups IH]; simpl.
  - destruct (decide (key = k)), (decide (k = key)); congruence.
  - destruct (decide (k' = key)) as [->|Hne]; simpl.
    + destruct (decide (key = k)), (decide (k = key)); congruence.
    + rewrite IH. destruct (decide (k' = k)), (decide (k = key)); congruence.
Qed.

Lemma group_count_snoc keys key :
  group_count (keys ++ [key]) = group_add key (group_count keys).
Proof. unfold group_count. by rewrite foldl_app. Qed.

Lemma occurrences_snoc k keys key :
  occurrences k (keys ++ [key])
  = if decide (k = key) then S (occurrences k keys) else occurrences k keys.
Proof.
  unfold occurrences. rewrite filter_app, length_app.
  destruct (decide (k = key)) as [->|Hne].
  - rewrite filter_cons_True, filter_nil by done. simpl. lia.
  - rewrite filter_cons_False, filter_nil by congruence. simpl. lia.
Qed.

Lemma assoc_group_count k keys :
  assoc k (group_count keys)
  = if decide (occurrences k keys = 0%nat) then None else Some (occurrences k keys).
Proof.
  induction keys as [|key keys IH] using rev_ind; [done|].
  rewrite group_count_snoc, assoc_group_add, occurrences_snoc.
  destruct (decide (k = key)) as [->|Hne]; [|done].
  rewrite IH.
  destruct (decide (occurrences key keys = 0%nat)) as [Hz|Hz]; simpl;
    [by rewrite Hz | done].
Qed.

Lemma fst_group_add key groups :
  (group_add key groups).*1
  = if decide (key ∈ groups.*1) then groups.*1 else (groups.*1 ++ [key])%list.
Proof.
  induction groups as [|[k' n] groups IH].
  - rewrite decide_False; [done | apply not_elem_of_nil].
  - cbn [group_add].
    destruct (decide (k' = key)) as [->|Hne]; rewrite !fmap_cons; cbn [fst].
    + rewrite decide_True; [done | left].
    + rewrite IH. destruct (decide (key ∈ groups.*1)) as [Hin|Hin].
      * rewrite decide_True; [done | by right].
      * rewrite decide_False; [done|].
        intros [?|?]%elem_of_cons; congruence.
Qed.

Lemma NoDup_group_count keys : NoDup (group_count keys).*1.
Proof.
  induction keys as [|key keys IH] using rev_ind; [constructor|].
  rewrite group_count_snoc, fst_group_add. case_decide as Hin; [done|].
  apply NoDup_app. split; [done|]. split.
  - intros k Hk ->%list_elem_of_singleton. done.
  - apply NoDup_singleton.
Qed.

Lemma assoc_not_elem k groups : k ∉ groups.*1 → assoc k groups = None.
Proof.
  induction groups as [|[k' n] groups IH]; [done|]. simpl.
  intros Hk. apply not_elem_of_cons in Hk as [Hne Hk].
  rewrite decide_False by congruence. auto.
Qed.

(** The object built by [reduce] holds, for each key, the count of its
    group. *)
Lemma reduce_lookup groups (acc : gmap string nat) k :
  NoDup groups.*1 →
  foldl (λ (acc : gmap string nat) (game : string * nat), js_assign game.1 game.2 acc)
        acc groups !! k
  = if decide (k = "__proto__") then acc !! k
    else match assoc k groups with Some n => Some n | None => acc !! k end.
Proof.
  revert acc. induction groups as [|[k' n] groups IH]; intros acc Hnd.
  { simpl. by case_decide. }
  cbn [foldl assoc fst snd] in *. rewrite fmap_cons in Hnd.
  apply NoDup_cons in Hnd as [Hk' Hnd]. rewrite IH by done.
  unfold js_assign. destruct (decide (k = "__proto__")) as [Hk|Hk].
  - destruct (decide (k' = "__proto__")); [done|].
    apply lookup_insert_ne. congruence.
  - destruct (decide (k' = "__proto__")) as [Hp|Hp].
    + rewrite decide_False by congruence. done.
    + destruct (decide (k' = k)) as [->|Hne].
      * rewrite assoc_not_elem by done. apply lookup_insert_eq.
      * destruct (assoc k groups); [done|]. by apply lookup_insert_ne.
Qed.

Lemma group_count_keys keys k : k ∈ (group_count keys).*1 → k ∈ keys.
Proof.
  induction keys as [|key keys IH] using rev_ind; [done|].
  rewrite group_count_snoc, fst_group_add. rewrite elem_of_app.
  case_decide; [by left; apply IH|].
  intros [?|?]%elem_of_app; [left; by apply IH | by right].
Qed.
End grouping.

Lemma occurrences_status uid s (gs : list GameDoc) :
  occurrences s (g_status <$> filter (Matches (mkFilter (Some uid) None)) gs)
  = length (filter (λ g, g_userId g = uid ∧ g_status g = s) gs).
Proof.
  unfold occurrences. induction gs as [|g gs IH]; [done|].
  destruct (decide (g_userId g = uid)) as [Hu|Hu].
  - rewrite (filter_cons_True (Matches _)) by done. rewrite fmap_cons.
    destruct (decide (g_status g = s)) as [Hs|Hs].
    + rewrite !filter_cons_True by done. simpl. by rewrite IH.
    + rewrite !filter_cons_False by tauto. done.
  - rewrite (filter_cons_False (Matches _)) by (intros [? _]; done).
    rewrite filter_cons_False by tauto. done.
Qed.

(** ** getGameDistributionByUser *)

(** C8: the distribution maps every status other than the string
    ["__proto__"] to the number of games of the user with that status, and
    has no entry for a status that none of the user's games has; the key
    ["__proto__"], which a plain object does not take by assignment, is
    never an entry. *)
Theorem getGameDistributionByUser_counts (w : World) (uid : Id) :
  healthy w →
  ∃ d w', getGameDistributionByUser uid w = (Ok d, w') ∧ games w' = games w ∧
    (∀ s, s ≠ "__proto__" →
       d !! s
       = let n := length (filter (λ g, g_userId g = uid ∧ g_status g = s) (games w)) in
         if decide (n = 0%nat) then None else Some n) ∧
    d !! "__proto__" = None.
Proof.
  intros Hw. unfold getGameDistributionByUser, gameModel_aggregate_status.
  run_healthy Hw. eexists _, _. split; [reflexivity|]. split; [done|]. split.
  - intros s Hs. simpl. rewrite reduce_lookup by apply NoDup_group_count.
    rewrite decide_False by done.
    rewrite assoc_group_count, occurrences_status, lookup_empty.
    by case_decide.
  - rewrite reduce_lookup by apply NoDup_group_count.
    rewrite decide_True by done. apply lookup_empty.
Qed.

Lemma getGameDistributionByUser_counts_witness :
  ∃ d w', getGameDistributionByUser "u1" sample_world = (Ok d, w') ∧
    games w' = games sample_world ∧
    (∀ s, s ≠ "__proto__" →
       d !! s
       = let n := length (filter (λ g, g_userId g = "u1" ∧ g_status g = s)
                                 (games sample_world)) in
         if decide (n = 0%nat) then None else Some n) ∧
    d !! "__proto__" = None.
Proof. apply (getGameDistributionByUser_counts sample_world "u1"). reflexivity. Defined.

(** A game with the status ["__proto__"] is not counted: its group is lost
    in the assignment, the other statuses keep their counts. *)
Example getGameDistributionByUser_proto_key :
  fst (getGameDistributionByUser "u1" odd_world)
  = Ok (<["Completo" := 1%nat]> (<["Pendente" := 1%nat]> ∅)).
Proof. vm_compute. reflexivity. Qed.

(** The example of the specification: games with statuses Pendente,
    Completo, Pendente give [{Pendente: 2, Completo: 1}] and nothing else. *)
Example getGameDistributionByUser_example :
  fst (getGameDistributionByUser "u1" sample_world)
  = Ok (<["Completo" := 1%nat]> (<["Pendente" := 2%nat]> ∅)).
Proof. vm_compute. reflexivity. Qed.

(** ** The enrichment queries *)

#[global] Instance newer_first_trans : Transitive newer_first.
Proof. unfold newer_first. intros a b c. lia. Qed.

#[global] Instance newer_first_total : Total newer_first.
Proof. unfold newer_first. intros a b. lia. Qed.

Lemma find_filter_implied {A} (p : A → bool) (Q : A → Prop) `{∀ x, Decision (Q x)}
    (l : list A) :
  (∀ x, p x = true → Q x) → List.find p (filter Q l) = List.find p l.
Proof.
  intros Hpq. induction l as [|x l IH]; [done|].
  destruct (decide (Q x)) as [HQ|HQ].
  - rewrite filter_cons_True by done. simpl. by rewrite IH.
  - rewrite filter_cons_False by done. simpl.
    destruct (p x) eqn:Hp; [by apply Hpq in Hp | done].
Qed.

Lemma find_None_all {A} (p : A → bool) (l : list A) :
  List.find p l = None → ∀ x, x ∈ l → p x = false.
Proof.
  induction l as [|y l IH]; simpl; [by intros _ x ?%elem_of_nil|].
  destruct (p y) eqn:Hp; [done|].
  intros Hf x [->|Hx]%elem_of_cons; auto.
Qed.

Lemma find_Some_elem {A} (p : A → bool) (l : list A) x :
  List.find p l = Some x → x ∈ l ∧ p x = true.
Proof.
  induction l as [|y l IH]; simpl; [done|].
  destruct (p y) eqn:Hp.
  - intros [= <-]. split; [left | done].
  - intros [??]%IH. split; [by right | done].
Qed.

(** Looking the owner up among the users fetched for the page is the same
    as looking it up in the whole collection. *)
Lemma attach_user_fetched (us : list UserDoc) (ids : list (option Id)) (game : LeanGame) :
  l_userId game ∈ ids → is_Some (l_userId game) →
  attach_user (filter (λ u, Some (u_id u) ∈ ids) us) game = attach_user us game.
Proof.
  intros Hin [uid Huid]. unfold attach_user. rewrite find_filter_implied; [done|].
  intros u Hu. apply bool_decide_eq_true_1 in Hu. rewrite Huid in Hu, Hin.
  simpl in Hu. by rewrite Hu.
Qed.

Lemma attach_user_attached (us : list UserDoc) (game : LeanGame) :
  is_Some (l_userId game) → user_attached us (attach_user us game).
Proof.
  intros [uid Huid]. unfold user_attached, attach_user. simpl. rewrite Huid. simpl.
  destruct (List.find _ us) as [u|] eqn:Hfind.
  - apply find_Some_elem in Hfind as [Hu Heq]. apply bool_decide_eq_true_1 in Heq.
    exists u. by rewrite Heq.
  - intros u Hu [= ->]. apply (find_None_all _ _ Hfind) in Hu.
    by apply bool_decide_eq_false_1 in Hu.
Qed.

Lemma attach_user_game us game : fg_game (attach_user us game) = game.
Proof. done. Qed.

Lemma length_recent n gs : length (recent n gs) = (n `min` length gs)%nat.
Proof.
  unfold recent. rewrite length_take.
  by rewrite (Permutation_length (merge_sort_Permutation newer_first gs)).
Qed.

Lemma recent_sorted n gs : StronglySorted newer_first (recent n gs).
Proof.
  unfold recent. eapply StronglySorted_app_1_l. rewrite take_drop.
  apply (StronglySorted_merge_sort newer_first).
Qed.

Lemma recent_elem_of n gs g : g ∈ recent n gs → g ∈ gs.
Proof.
  unfold recent. intros Hg%subseteq_take.
  by rewrite (merge_sort_Permutation newer_first gs) in Hg.
Qed.

Lemma getLastGamesUpdated_healthy (w : World) :
  healthy w →
  let page :=
    lean ["_id"; "nome"; "updatedAt"; "updatedBy"; "userId"; "image"]
      <$> recent 5 (games w) in
  ∃ w', getLastGamesUpdated w = (Ok (attach_user (users w) <$> page), w') ∧
        games w' = games w.
Proof.
  intros Hw. cbv zeta.
  unfold getLastGamesUpdated, gameModel_find_recent, userModel_find_in.
  unfold try_catch, bind, logger_log, logger_warn, ret. cbv beta iota.
  rewrite exec_healthy by exact Hw. cbv beta iota.
  change (games (add_log (LOG, "Fetching last games updated") w)) with (games w).
  rewrite filter_Matches_all. fold (recent 5 (games w)).
  set (page := lean _ <$> recent 5 (games w)).
  assert (Hatt : attach_user (filter (λ u, Some (u_id u) ∈ l_userId <$> page) (users w))
                   <$> page
                 = attach_user (users w) <$> page).
  { apply list_fmap_ext. intros i game Hgame. apply list_elem_of_lookup_2 in Hgame.
    apply attach_user_fetched.
    - apply list_elem_of_fmap. by exists game.
    - apply list_elem_of_fmap in Hgame as (g & -> & _). by eexists. }
  destruct page as [|game rest] eqn:Hpage; [by eexists|].
  rewrite exec_healthy by exact Hw. cbv beta iota.
  change (users (add_log (LOG, "Fetching last games updated") w)) with (users w).
  rewrite Hatt. by eexists.
Qed.

(** C3: on a healthy store [getLastGamesUpdated] returns at most 5 games, in
    descending order of [updatedAt], each a stored game with the [user]
    property set to the summary of its owner or to [Unknown] when no user
    has the game's [userId]; with no games it returns the empty list. *)
Theorem getLastGamesUpdated_page (w : World) :
  healthy w →
  ∃ r w', getLastGamesUpdated w = (Ok r, w') ∧
    (length r ≤ 5)%nat ∧
    length r = (5 `min` length (games w))%nat ∧
    StronglySorted newer_first_out r ∧
    Forall (user_attached (users w)) r ∧
    (∀ fg, fg ∈ r → ∃ g, g ∈ games w ∧ l_id (fg_game fg) = g_id g ∧
                         l_updatedAt (fg_game fg) = Some (g_updatedAt g) ∧
                         l_userId (fg_game fg) = Some (g_userId g)) ∧
    (games w = [] → r = []).
Proof.
  intros Hw. destruct (getLastGamesUpdated_healthy w Hw) as (w' & Hrun & _).
  eexists _, w'. split; [exact Hrun|].
  assert (Hlen : length (attach_user (users w) <$>
                   (lean ["_id"; "nome"; "updatedAt"; "updatedBy"; "userId"; "image"]
                      <$> recent 5 (games w)))
                 = (5 `min` length (games w))%nat).
  { by rewrite !length_fmap, length_recent. }
  split; [rewrite Hlen; lia|]. split; [exact Hlen|].
  split; [|split; [|split]].
  - rewrite <- list_fmap_compose.
    eapply StronglySorted_fmap; [|apply recent_sorted].
    intros a b Hab. exists (g_updatedAt a), (g_updatedAt b). by repeat split.
  - apply Forall_fmap, Forall_fmap, Forall_forall. intros g _.
    apply attach_user_attached. by eexists.
  - intros fg (game & -> & (g & -> & Hg%recent_elem_of)%list_elem_of_fmap)%list_elem_of_fmap.
    exists g. by repeat split.
  - intros Hempty. rewrite Hempty. reflexivity.
Qed.

Lemma getLastGamesUpdated_page_witness :
  ∃ r w', getLastGamesUpdated sample_world = (Ok r, w') ∧
    (length r ≤ 5)%nat ∧
    length r = (5 `min` length (games sample_world))%nat ∧
    StronglySorted newer_first_out r ∧
    Forall (user_attached (users sample_world)) r ∧
    (∀ fg, fg ∈ r → ∃ g, g ∈ games sample_world ∧ l_id (fg_game fg) = g_id g ∧
                         l_updatedAt (fg_game fg) = Some (g_updatedAt g) ∧
                         l_userId (fg_game fg) = Some (g_userId g)) ∧
    (games sample_world = [] → r = []).
Proof. apply (getLastGamesUpdated_page sample_world). reflexivity. Defined.

Lemma lean_by_user_no_userId g :
  l_userId (lean ["_id"; "nome"; "updatedAt"; "updatedBy"; "image"] g) = None.
Proof. reflexivity. Qed.

Lemma filter_users_no_ids (page : list LeanGame) (us : list UserDoc) :
  Forall (λ game, l_userId game = None) page →
  filter (λ u, Some (u_id u) ∈ l_userId <$> page) us = [].
Proof.
  intros Hpage. apply filter_none. intros u _ (game & Hid & Hgame)%list_elem_of_fmap.
  rewrite Forall_forall in Hpage. by rewrite (Hpage game Hgame) in Hid.
Qed.

Lemma attach_user_nil (page : list LeanGame) :
  Forall (λ fg, fg_user fg = Unknown) (attach_user [] <$> page).
Proof. by apply Forall_fmap, Forall_forall. Qed.

(** Names the page returned by the first query and records what [Hpage]
    says of it. *)
Ltac abstract_page Hpage :=
  match goal with
  | |- context [lean ?P <$> take 5 ?l] =>
      let H := fresh "Hp" in
      pose proof (Hpage (take 5 l)) as H;
      set (page := lean P <$> take 5 l) in *; clearbody page
  end.

(** Every way [getLastGamesUpdatedByUser] can end: with games that all carry
    [Unknown], or with the error of a failed driver call as it was thrown. *)
Lemma getLastGamesUpdatedByUser_cases (w : World) (uid : Id) :
  match fst (getLastGamesUpdatedByUser uid w) with
  | Ok r => Forall (λ fg, fg_user fg = Unknown) r
  | Err e => ∃ m, e = DriverError m ∧ Some m ∈ faults w
  end.
Proof.
  unfold getLastGamesUpdatedByUser, gameModel_find_recent, userModel_find_in.
  unfold bind, logger_log, logger_warn, ret. cbv beta iota.
  set (w1 := add_log _ w).
  assert (Hpage : ∀ gs, Forall (λ game, l_userId game = None)
     (lean ["_id"; "nome"; "updatedAt"; "updatedBy"; "image"] <$> gs)).
  { intros gs. by apply Forall_fmap, Forall_forall. }
  unfold exec. change (faults w) with (faults w1).
  destruct (faults w1) as [|[m|] rest] eqn:Hf; cbv beta iota.
  - abstract_page Hpage.
    destruct page as [|game page']; cbv beta iota; cbn [fst]; [by constructor|].
    rewrite Hf. cbn [fst]. rewrite filter_users_no_ids by done. apply attach_user_nil.
  - exists m. split; [done | left].
  - abstract_page Hpage.
    destruct page as [|game page']; cbv beta iota; cbn [fst]; [by constructor|].
    change (faults (set_faults rest w1)) with rest.
    destruct rest as [|[m|] rest']; cbn [fst].
    + rewrite filter_users_no_ids by done. apply attach_user_nil.
    + exists m. split; [done | right; left].
    + rewrite filter_users_no_ids by done. apply attach_user_nil.
Qed.

(** C2: whatever the collections hold, every game that
    [getLastGamesUpdatedByUser] returns lacks [userId] (the projection leaves
    it out) and carries [Unknown], also when its owner is in the users
    collection. *)
Theorem getLastGamesUpdatedByUser_always_Unknown (w w' : World) (uid : Id)
    (r : list FormattedGame) :
  getLastGamesUpdatedByUser uid w = (Ok r, w') →
  Forall (λ fg, fg_user fg = Unknown) r.
Proof.
  intros Hrun. pose proof (getLastGamesUpdatedByUser_cases w uid) as Hc.
  by rewrite Hrun in Hc.
Qed.

Lemma getLastGamesUpdatedByUser_always_Unknown_witness :
  ∃ r w', getLastGamesUpdatedByUser "u1" sample_world = (Ok r, w') ∧
    length r = 3%nat ∧
    (∃ u, u ∈ users sample_world ∧ u_id u = "u1") ∧
    Forall (λ fg, fg_user fg = Unknown) r.
Proof.
  eexists _, _. split; [vm_compute; reflexivity|].
  split; [reflexivity|]. split; [exists u_ana; split; [left | reflexivity]|].
  eapply (getLastGamesUpdatedByUser_always_Unknown sample_world _ "u1").
  vm_compute. reflexivity.
Defined.

(** On the same store [getLastGamesUpdated] attaches the owner's summary to
    the games of that user. *)
Example getLastGamesUpdated_attaches_owner :
  fg_user <$> (match fst (getLastGamesUpdated sample_world) with
               | Ok r => r
               | Err _ => []
               end)
  = [UserSummary "u1" "Ana" "ana.png"; UserSummary "u1" "Ana" "ana.png"; Unknown;
     UserSummary "u1" "Ana" "ana.png"].
Proof. vm_compute. reflexivity. Qed.

(** ** Store failures in the enrichment queries *)

Lemma page_nonempty projection (gs : list GameDoc) :
  gs ≠ [] → lean projection <$> take 5 (merge_sort newer_first gs) ≠ [].
Proof.
  intros Hgs Hnil. apply (f_equal length) in Hnil.
  rewrite length_fmap in Hnil. fold (recent 5 gs) in Hnil.
  rewrite length_recent in Hnil. destruct gs; [done | simpl in Hnil; lia].
Qed.

Lemma filter_owner_nonempty uid (gs : list GameDoc) :
  (∃ g, g ∈ gs ∧ g_userId g = uid) →
  filter (Matches (mkFilter (Some uid) None)) gs ≠ [].
Proof.
  intros (g & Hg & Hu) Hnil.
  exact (filter_nil_not_elem_of (Matches _) gs g Hnil (conj Hu I) Hg).
Qed.

(** C6: [getLastGamesUpdated] turns every failure into the generic
    [BadRequestException] and logs the message of the original error;
    [getLastGamesUpdatedByUser] lets the error of the driver through as it
    was thrown.  This holds for a failure of the first driver call (the
    games query) and of the second (the users query). *)
Theorem store_failure_wrapped_or_propagated (w : World) :
  (∀ e, fst (getLastGamesUpdated w) = Err e →
        e = BadRequestException "Error fetching games. Please try again later.") ∧
  (∀ uid e, fst (getLastGamesUpdatedByUser uid w) = Err e →
            ∃ m, e = DriverError m ∧ Some m ∈ faults w) ∧
  (∀ m rest, faults w = Some m :: rest →
     fst (getLastGamesUpdated w)
     = Err (BadRequestException "Error fetching games. Please try again later.") ∧
     (ERROR, "Error fetching games: " +:+ m) ∈ logged (snd (getLastGamesUpdated w)) ∧
     ∀ uid, fst (getLastGamesUpdatedByUser uid w) = Err (DriverError m)) ∧
  (∀ m rest, faults w = None :: Some m :: rest →
     (games w ≠ [] →
        fst (getLastGamesUpdated w)
        = Err (BadRequestException "Error fetching games. Please try again later.") ∧
        (ERROR, "Error fetching games: " +:+ m) ∈ logged (snd (getLastGamesUpdated w))) ∧
     (∀ uid, (∃ g, g ∈ games w ∧ g_userId g = uid) →
        fst (getLastGamesUpdatedByUser uid w) = Err (DriverError m))).
Proof.
  split; [|split; [|split]].
  - intros e. unfold getLastGamesUpdated, try_catch.
    destruct (bind _ _ w) as [[r|e'] w1]; [done|].
    unfold bind, logger_error, throw. cbv beta iota. cbn [fst]. congruence.
  - intros uid e He. pose proof (getLastGamesUpdatedByUser_cases w uid) as Hc.
    by rewrite He in Hc.
  - intros m rest Hf. split; [|split].
    + unfold getLastGamesUpdated, gameModel_find_recent, try_catch, bind, logger_log,
        logger_error, throw, exec.
      cbv beta iota. cbn [faults add_log]. rewrite Hf. reflexivity.
    + unfold getLastGamesUpdated, gameModel_find_recent, try_catch, bind, logger_log,
        logger_error, throw, exec.
      cbv beta iota. cbn [faults add_log]. rewrite Hf. cbn.
      apply elem_of_app. right. left.
    + intros uid.
      unfold getLastGamesUpdatedByUser, gameModel_find_recent, bind, logger_log, exec.
      cbv beta iota. cbn [faults add_log]. rewrite Hf. reflexivity.
  - intros m rest Hf. split.
    + intros Hgames.
      unfold getLastGamesUpdated, gameModel_find_recent, userModel_find_in, try_catch,
        bind, logger_log, logger_error, throw, exec.
      cbv beta iota. cbn [faults add_log]. rewrite Hf. cbv beta iota.
      change (games (set_faults _ (add_log _ w))) with (games w).
      rewrite filter_Matches_all.
      pose proof (page_nonempty
        ["_id"; "nome"; "updatedAt"; "updatedBy"; "userId"; "image"] (games w) Hgames)
        as Hpage.
      destruct (lean _ <$> take 5 _) as [|game page]; [done|].
      cbv beta iota. cbn [faults set_faults message fst snd logged add_log].
      split; [reflexivity|]. apply elem_of_app. right. left.
    + intros uid Howner.
      unfold getLastGamesUpdatedByUser, gameModel_find_recent, userModel_find_in,
        bind, logger_log, exec.
      cbv beta iota. cbn [faults add_log]. rewrite Hf. cbv beta iota.
      change (games (set_faults _ (add_log _ w))) with (games w).
      pose proof (page_nonempty ["_id"; "nome"; "updatedAt"; "updatedBy"; "image"] _
                    (filter_owner_nonempty uid (games w) Howner)) as Hpage.
      destruct (lean _ <$> take 5 _) as [|game page]; [done|].
      cbv beta iota. cbn [faults set_faults fst]. reflexivity.
Qed.

Lemma store_failure_wrapped_or_propagated_witness :
  fst (getLastGamesUpdated (set_faults [Some "connection lost"] sample_world))
  = Err (BadRequestException "Error fetching games. Please try again later.") ∧
  (ERROR, "Error fetching games: " +:+ "connection lost")
  ∈ logged (snd (getLastGamesUpdated (set_faults [Some "connection lost"] sample_world))) ∧
  ∀ uid, fst (getLastGamesUpdatedByUser uid (set_faults [Some "connection lost"] sample_world))
         = Err (DriverError "connection lost").
Proof.
  pose proof (store_failure_wrapped_or_propagated
                (set_faults [Some "connection lost"] sample_world))
    as (_ & _ & Hfirst & _).
  apply (Hfirst "connection lost" []). reflexivity.
Defined.

(** ** What the writing methods do to the world *)

Lemma find_None_delete_id id (gs : list GameDoc) :
  List.find (has_id id) gs = None → delete_id id gs = gs.
Proof.
  induction gs as [|g gs IH]; [done|]. simpl.
  destruct (has_id id g); [done|]. intros Hf. by rewrite IH.
Qed.

Lemma find_None_replace_id id f (gs : list GameDoc) :
  List.find (has_id id) gs = None → replace_id id f gs = gs.
Proof.
  induction gs as [|g gs IH]; [done|]. simpl.
  destruct (has_id id g); [done|]. intros Hf. by rewrite IH.
Qed.

Lemma ids_replace_id id f (gs : list GameDoc) :
  (∀ g, g_id (f g) = g_id g) → g_id <$> replace_id id f gs = g_id <$> gs.
Proof.
  intros Hf. induction gs as [|g gs IH]; [done|]. simpl.
  destruct (has_id id g); rewrite !fmap_cons; [by rewrite Hf | by rewrite IH].
Qed.

Lemma delete_id_sublist id (gs : list GameDoc) : delete_id id gs `sublist_of` gs.
Proof.
  induction gs as [|g gs IH]; [done|]. simpl.
  destruct (has_id id g); [by apply sublist_cons | by apply sublist_skip].
Qed.

Lemma length_delete_id id (gs : list GameDoc) g :
  List.find (has_id id) gs = Some g → S (length (delete_id id gs)) = length gs.
Proof.
  induction gs as [|g' gs IH]; [done|]. simpl.
  destruct (has_id id g'); [done|]. intros Hf. simpl. by rewrite IH.
Qed.

Lemma find_delete_id_other id id' (gs : list GameDoc) :
  id' ≠ id → List.find (has_id id') (delete_id id gs) = List.find (has_id id') gs.
Proof.
  intros Hne. induction gs as [|g gs IH]; [done|]. simpl.
  destruct (decide (g_id g = id)) as [Hg|Hg].
  - rewrite (has_id_eq id g Hg). rewrite has_id_ne by congruence. done.
  - rewrite (has_id_ne id g Hg). simpl. by rewrite IH.
Qed.

(** The outcome of [create], whatever the driver does: the world changes
    only by log entries, consumed fault entries and, on success, the new
    game at the end of the collection. *)
Lemma create_frame (w w' : World) (oid : Id) (dto : CreateGameDto) r :
  create oid dto w = (r, w') →
  users w' = users w ∧ clock w' = clock w ∧ defaultStatus w' = defaultStatus w ∧
  match r with
  | Ok g =>
      games w' = (games w ++ [g])%list ∧ g_id g = oid ∧ (oid ∉ g_id <$> games w) ∧
      g_status g = default (defaultStatus w) (status dto) ∧
      status_rejected dto = false ∧ missing_field requiredFields dto = None
  | Err (BadRequestException _) => games w' = games w ∧ faults w' = faults w
  | Err _ => games w' = games w
  end.
Proof.
  unfold create, bind, logger_log. cbv beta iota.
  rewrite check_required_run. fold (status_rejected dto).
  destruct (missing_field requiredFields dto) as [field|]; [by intros [= <- <-]|].
  destruct (status_rejected dto); [by intros [= <- <-]|].
  unfold gameModel_new, gameModel_save, exec. cbv beta iota.
  cbn [faults add_log clock defaultStatus games].
  destruct (faults w) as [|[m|] rest]; [|by intros [= <- <-]|].
  - case_bool_decide as Hin; intros [= <- <-]; cbn; [done|]. by repeat split.
  - cbn [games set_faults add_log]. case_bool_decide as Hin; intros [= <- <-]; cbn; [done|].
    by repeat split.
Qed.

(** The outcome of [update], whatever the driver does. *)
Lemma update_frame (w w' : World) (id : Id) (dto : CreateGameDto) r :
  update id dto w = (r, w') →
  users w' = users w ∧ clock w' = clock w ∧ defaultStatus w' = defaultStatus w ∧
  match r with
  | Ok g' =>
      ∃ g, List.find (has_id id) (games w) = Some g ∧
           g' = apply_update dto (clock w) g ∧
           games w' = replace_id id (apply_update dto (clock w)) (games w) ∧
           status_rejected dto = false
  | Err _ => games w' = games w
  end.
Proof.
  unfold update, bind, logger_log. cbv beta iota. fold (status_rejected dto).
  destruct (status_rejected dto); [by intros [= <- <-]|].
  unfold new_Date, gameModel_findByIdAndUpdate, exec. cbv beta iota.
  cbn [faults add_log clock games].
  destruct (faults w) as [|[m|] rest]; [|by intros [= <- <-]|].
  - destruct (List.find (has_id id) (games w)) as [g|] eqn:Hg;
      intros [= <- <-]; cbn.
    + repeat split. by exists g.
    + repeat split. by apply find_None_replace_id.
  - cbn [games set_faults add_log clock].
    destruct (List.find (has_id id) (games w)) as [g|] eqn:Hg;
      intros [= <- <-]; cbn.
    + repeat split. by exists g.
    + repeat split. by apply find_None_replace_id.
Qed.

(** The outcome of [remove], whatever the driver does. *)
Lemma remove_frame (w w' : World) (id : Id) r :
  remove id w = (r, w') →
  users w' = users w ∧ clock w' = clock w ∧ defaultStatus w' = defaultStatus w ∧
  match r with
  | Ok removed =>
      ∃ g, removed = Some g ∧ List.find (has_id id) (games w) = Some g ∧
           games w' = delete_id id (games w)
  | Err _ => games w' = games w
  end.
Proof.
  unfold remove, bind, logger_log, gameModel_findByIdAndDelete, exec, get_id.
  cbv beta iota. cbn [faults add_log games].
  destruct (faults w) as [|[m|] rest]; [|by intros [= <- <-]|].
  - destruct (List.find (has_id id) (games w)) as [g|] eqn:Hg;
      intros [= <- <-]; cbn.
    + repeat split. by exists g.
    + repeat split. by apply find_None_delete_id.
  - cbn [games set_faults add_log].
    destruct (List.find (has_id id) (games w)) as [g|] eqn:Hg;
      intros [= <- <-]; cbn.
    + repeat split. by exists g.
    + repeat split. by apply find_None_delete_id.
Qed.

(** ** What the reading methods do to the world *)

(** Follows a method through every outcome of its driver calls. *)
Ltac follow :=
  repeat (cbv beta iota;
          cbn [faults games users clock defaultStatus add_log set_faults set_games fst snd];
          try match goal with
          | |- context [match faults ?w with _ => _ end] =>
              destruct (faults w) as [|[?|] ?]
          | |- context [match ?l with [] => _ | _ :: _ => _ end] =>
              is_var l; destruct l as [|[?|] ?]
          | |- context [match fmap ?f ?l with _ => _ end] => destruct (fmap f l)
          | |- context [match List.find ?p ?l with _ => _ end] => destruct (List.find p l)
          end).

Lemma findAll_frame (w : World) :
  games (snd (findAll w)) = games w ∧ users (snd (findAll w)) = users w.
Proof.
  unfold findAll, gameModel_find, bind, logger_log, ret, exec. by follow.
Qed.

Lemma findByUser_frame (w : World) uid st :
  games (snd (findByUser uid st w)) = games w ∧
  users (snd (findByUser uid st w)) = users w.
Proof.
  unfold findByUser, gameModel_find, bind, logger_log, ret, exec. by follow.
Qed.

Lemma findById_frame (w : World) id :
  games (snd (findById id w)) = games w ∧ users (snd (findById id w)) = users w.
Proof.
  unfold findById, gameModel_findById, bind, logger_log, logger_error, throw, ret, exec.
  by follow.
Qed.

Lemma getLastGamesUpdated_frame (w : World) :
  games (snd (getLastGamesUpdated w)) = games w ∧
  users (snd (getLastGamesUpdated w)) = users w.
Proof.
  unfold getLastGamesUpdated, gameModel_find_recent, userModel_find_in, try_catch,
    bind, logger_log, logger_warn, logger_error, throw, ret, exec.
  by follow.
Qed.

Lemma getGameDistributionByUser_frame (w : World) uid :
  games (snd (getGameDistributionByUser uid w)) = games w ∧
  users (snd (getGameDistributionByUser uid w)) = users w.
Proof.
  unfold getGameDistributionByUser, gameModel_aggregate_status, bind, logger_log, ret, exec.
  by follow.
Qed.

Lemma getLastGamesUpdatedByUser_frame (w : World) uid :
  games (snd (getLastGamesUpdatedByUser uid w)) = games w ∧
  users (snd (getLastGamesUpdatedByUser uid w)) = users w.
Proof.
  unfold getLastGamesUpdatedByUser, gameModel_find_recent, userModel_find_in,
    bind, logger_log, logger_warn, ret, exec.
  by follow.
Qed.

(** X1: the reading methods leave both collections as they were, whatever the
    driver does; the writing methods never change the users collection. *)
Theorem collections_untouched (w : World) :
  (games (snd (findAll w)) = games w ∧ users (snd (findAll w)) = users w) ∧
  (∀ uid st, games (snd (findByUser uid st w)) = games w ∧
             users (snd (findByUser uid st w)) = users w) ∧
  (∀ id, games (snd (findById id w)) = games w ∧
         users (snd (findById id w)) = users w) ∧
  (games (snd (getLastGamesUpdated w)) = games w ∧
   users (snd (getLastGamesUpdated w)) = users w) ∧
  (∀ uid, games (snd (getGameDistributionByUser uid w)) = games w ∧
          users (snd (getGameDistributionByUser uid w)) = users w) ∧
  (∀ uid, games (snd (getLastGamesUpdatedByUser uid w)) = games w ∧
          users (snd (getLastGamesUpdatedByUser uid w)) = users w) ∧
  (∀ oid dto, users (snd (create oid dto w)) = users w) ∧
  (∀ id dto, users (snd (update id dto w)) = users w) ∧
  (∀ id, users (snd (remove id w)) = users w).
Proof.
  split; [apply findAll_frame|].
  split; [apply findByUser_frame|].
  split; [apply findById_frame|].
  split; [apply getLastGamesUpdated_frame|].
  split; [apply getGameDistributionByUser_frame|].
  split; [apply getLastGamesUpdatedByUser_frame|].
  split; [|split].
  - intros oid dto. destruct (create oid dto w) as [r w'] eqn:Hrun.
    by destruct (create_frame _ _ _ _ _ Hrun) as [? _].
  - intros id dto. destruct (update id dto w) as [r w'] eqn:Hrun.
    by destruct (update_frame _ _ _ _ _ Hrun) as [? _].
  - intros id. destruct (remove id w) as [r w'] eqn:Hrun.
    by destruct (remove_frame _ _ _ _ Hrun) as [? _].
Qed.

(** ** Invariants of the writing methods *)

Lemma elem_of_replace_id id f (gs : list GameDoc) g' :
  g' ∈ replace_id id f gs → g' ∈ gs ∨ ∃ g, g ∈ gs ∧ g' = f g.
Proof.
  induction gs as [|g gs IH]; [by intros ?%elem_of_nil|]. simpl.
  destruct (has_id id g).
  - intros [->|Hg']%elem_of_cons.
    + right. exists g. split; [left | done].
    + left. by right.
  - intros [->|Hg']%elem_of_cons; [left; left|].
    destruct (IH Hg') as [?|(g0 & ? & ?)]; [left; by right|].
    right. exists g0. split; [by right | done].
Qed.

Lemma status_not_rejected (dto : CreateGameDto) s :
  status_rejected dto = false → status dto = Some s → s = "" ∨ s ∈ validStatuses.
Proof.
  unfold status_rejected. intros Hrej Hs. rewrite Hs in Hrej. destruct s as [|a s].
  - by left.
  - right. simpl in Hrej. apply negb_false_iff in Hrej.
    by apply bool_decide_eq_true_1 in Hrej.
Qed.

(** X2: uniqueness of ids is kept by the three writing methods, whatever the
    input and whatever the driver does. *)
Theorem unique_ids_preserved (w : World) :
  unique_ids w →
  (∀ oid dto, unique_ids (snd (create oid dto w))) ∧
  (∀ id dto, unique_ids (snd (update id dto w))) ∧
  (∀ id, unique_ids (snd (remove id w))).
Proof.
  unfold unique_ids. intros Hw. split; [|split].
  - intros oid dto. destruct (create oid dto w) as [r w'] eqn:Hrun.
    destruct (create_frame _ _ _ _ _ Hrun) as (_ & _ & _ & Hr). simpl.
    destruct r as [g|e].
    + destruct Hr as (-> & Hid & Hfresh & _). rewrite fmap_app. apply NoDup_app.
      split; [done|]. split; [|apply NoDup_singleton].
      intros x Hx ->%list_elem_of_singleton. simpl in Hx. by rewrite Hid in Hx.
    + destruct e as [m|m|m|m]; [|destruct Hr as [Hr _]| |]; by rewrite Hr.
  - intros id dto. destruct (update id dto w) as [r w'] eqn:Hrun.
    destruct (update_frame _ _ _ _ _ Hrun) as (_ & _ & _ & Hr). simpl.
    destruct r as [g'|e]; [|by rewrite Hr].
    destruct Hr as (g & _ & _ & -> & _).
    by rewrite ids_replace_id by apply apply_update_id.
  - intros id. destruct (remove id w) as [r w'] eqn:Hrun.
    destruct (remove_frame _ _ _ _ Hrun) as (_ & _ & _ & Hr). simpl.
    destruct r as [removed|e]; [|by rewrite Hr].
    destruct Hr as (g & _ & _ & ->).
    apply (sublist_NoDup _ (g_id <$> games w)); [exact Hw|].
    apply fmap_sublist, delete_id_sublist.
Qed.

Lemma sample_unique_ids : unique_ids sample_world.
Proof. unfold unique_ids. apply (bool_decide_unpack _). vm_compute. exact I. Qed.

Lemma unique_ids_preserved_witness :
  (∀ oid dto, unique_ids (snd (create oid dto sample_world))) ∧
  (∀ id dto, unique_ids (snd (update id dto sample_world))) ∧
  (∀ id, unique_ids (snd (remove id sample_world))).
Proof. apply (unique_ids_preserved sample_world). apply sample_unique_ids. Defined.

(** X3: the writing methods only ever store a status that is one of the four
    values, the empty string or the schema default. *)
Theorem statuses_admitted_preserved (w : World) :
  statuses_admitted w →
  (∀ oid dto, statuses_admitted (snd (create oid dto w))) ∧
  (∀ id dto, statuses_admitted (snd (update id dto w))) ∧
  (∀ id, statuses_admitted (snd (remove id w))).
Proof.
  unfold statuses_admitted. intros Hw. split; [|split].
  - intros oid dto. destruct (create oid dto w) as [r w'] eqn:Hrun.
    destruct (create_frame _ _ _ _ _ Hrun) as (_ & _ & Hdef & Hr). simpl.
    rewrite Hdef. destruct r as [g|e].
    + destruct Hr as (-> & _ & _ & Hst & Hrej & _).
      intros g' [Hg'|Hg']%elem_of_app; [by apply Hw|].
      apply list_elem_of_singleton in Hg' as ->.
      rewrite Hst. destruct (status dto) as [s|] eqn:Hs; simpl; [|by right; right].
      destruct (status_not_rejected dto s Hrej Hs); tauto.
    + destruct e as [m|m|m|m]; [|destruct Hr as [Hr _]| |]; by rewrite Hr.
  - intros id dto. destruct (update id dto w) as [r w'] eqn:Hrun.
    destruct (update_frame _ _ _ _ _ Hrun) as (_ & _ & Hdef & Hr). simpl.
    rewrite Hdef. destruct r as [g'|e]; [|by rewrite Hr].
    destruct Hr as (g & _ & _ & -> & Hrej).
    intros g1 [Hg1|(g0 & Hg0 & ->)]%elem_of_replace_id; [by apply Hw|].
    simpl. destruct (status dto) as [s|] eqn:Hs; simpl; [|by apply Hw].
    destruct (status_not_rejected dto s Hrej Hs); tauto.
  - intros id. destruct (remove id w) as [r w'] eqn:Hrun.
    destruct (remove_frame _ _ _ _ Hrun) as (_ & _ & Hdef & Hr). simpl.
    rewrite Hdef. destruct r as [removed|e]; [|by rewrite Hr].
    destruct Hr as (g & _ & _ & ->).
    intros g' Hg'. apply Hw. by eapply delete_id_subseteq.
Qed.

Lemma sample_statuses_admitted : statuses_admitted sample_world.
Proof.
  intros g Hg. left. vm_compute in Hg.
  repeat (apply elem_of_cons in Hg as [->|Hg]; [unfold validStatuses; set_solver|]).
  by apply elem_of_nil in Hg.
Qed.

Lemma statuses_admitted_preserved_witness :
  (∀ oid dto, statuses_admitted (snd (create oid dto sample_world))) ∧
  (∀ id dto, statuses_admitted (snd (update id dto sample_world))) ∧
  (∀ id, statuses_admitted (snd (remove id sample_world))).
Proof.
  apply (statuses_admitted_preserved sample_world). apply sample_statuses_admitted.
Defined.

(** ** Failing and rejected writes *)

(** X4: when [create] or [update] throws a [BadRequestException], or
    [remove] throws the [TypeError], the games collection is as it was
    before the call. *)
Theorem own_throw_keeps_games (w : World) :
  (∀ oid dto m, fst (create oid dto w) = Err (BadRequestException m) →
     games (snd (create oid dto w)) = games w) ∧
  (∀ id dto m, fst (update id dto w) = Err (BadRequestException m) →
     games (snd (update id dto w)) = games w) ∧
  (∀ id m, fst (remove id w) = Err (TypeError m) →
     games (snd (remove id w)) = games w).
Proof.
  split; [|split].
  - intros oid dto m. destruct (create oid dto w) as [r w'] eqn:Hrun.
    destruct (create_frame _ _ _ _ _ Hrun) as (_ & _ & _ & Hr). simpl.
    intros ->. by destruct Hr.
  - intros id dto m. destruct (update id dto w) as [r w'] eqn:Hrun.
    destruct (update_frame _ _ _ _ _ Hrun) as (_ & _ & _ & Hr). simpl.
    by intros ->.
  - intros id m. destruct (remove id w) as [r w'] eqn:Hrun.
    destruct (remove_frame _ _ _ _ Hrun) as (_ & _ & _ & Hr). simpl.
    by intros ->.
Qed.

Lemma own_throw_keeps_games_witness :
  games (snd (update "g9" empty_dto sample_world)) = games sample_world ∧
  games (snd (remove "g9" sample_world)) = games sample_world.
Proof.
  pose proof (own_throw_keeps_games sample_world) as (_ & Hupdate & Hremove). split.
  - eapply (Hupdate "g9" empty_dto). vm_compute. reflexivity.
  - eapply (Hremove "g9"). vm_compute. reflexivity.
Defined.

(** X5: validation comes before any access to the store: a [create] that ends
    in a [BadRequestException], and an [update] whose status is rejected,
    have made no driver call and changed nothing but the log. *)
Theorem rejected_input_never_reaches_store (w : World) (dto : CreateGameDto) :
  (∀ oid m, fst (create oid dto w) = Err (BadRequestException m) →
            same_but_log w (snd (create oid dto w))) ∧
  (∀ id, status_rejected dto = true →
         fst (update id dto w)
         = Err (BadRequestException ("Invalid status: " +:+ js_String (status dto))) ∧
         same_but_log w (snd (update id dto w))).
Proof.
  split.
  - intros oid m. destruct (create oid dto w) as [r w'] eqn:Hrun.
    destruct (create_frame _ _ _ _ _ Hrun) as (? & ? & ? & Hr). simpl.
    intros ->. destruct Hr. by repeat split.
  - intros id Hrej. unfold update, bind, logger_log, logger_error, throw.
    cbv beta iota. fold (status_rejected dto). rewrite Hrej. by repeat split.
Qed.

Lemma rejected_input_never_reaches_store_witness :
  same_but_log sample_world (snd (create "g9" (new_game_dto (Some "Bogus")) sample_world)) ∧
  same_but_log sample_world (snd (update "g1" (new_game_dto (Some "Bogus")) sample_world)).
Proof.
  pose proof (rejected_input_never_reaches_store sample_world (new_game_dto (Some "Bogus")))
    as [Hcreate Hupdate].
  split.
  - eapply (Hcreate "g9"). vm_compute. reflexivity.
  - apply (Hupdate "g1"). vm_compute. reflexivity.
Defined.

(** ** Size of the collection *)

(** X6: a successful [create] adds one game, a successful [remove] takes one
    away, [update] never changes the number of games. *)
Theorem collection_size (w : World) :
  (∀ oid dto g, fst (create oid dto w) = Ok g →
     length (games (snd (create oid dto w))) = S (length (games w))) ∧
  (∀ id dto, length (games (snd (update id dto w))) = length (games w)) ∧
  (∀ id removed, fst (remove id w) = Ok removed →
     S (length (games (snd (remove id w)))) = length (games w)).
Proof.
  split; [|split].
  - intros oid dto g. destruct (create oid dto w) as [r w'] eqn:Hrun.
    destruct (create_frame _ _ _ _ _ Hrun) as (_ & _ & _ & Hr). simpl.
    intros ->. destruct Hr as [-> _]. rewrite length_app. simpl. lia.
  - intros id dto. destruct (update id dto w) as [r w'] eqn:Hrun.
    destruct (update_frame _ _ _ _ _ Hrun) as (_ & _ & _ & Hr). simpl.
    destruct r as [g'|e]; [|by rewrite Hr].
    destruct Hr as (g & _ & _ & -> & _). apply length_replace_id.
  - intros id removed. destruct (remove id w) as [r w'] eqn:Hrun.
    destruct (remove_frame _ _ _ _ Hrun) as (_ & _ & _ & Hr). simpl.
    intros ->. destruct Hr as (g & _ & Hg & ->). by eapply length_delete_id.
Qed.

Lemma collection_size_witness :
  length (games (snd (create "g9" (new_game_dto None) sample_world)))
  = S (length (games sample_world)) ∧
  S (length (games (snd (remove "g2" sample_world)))) = length (games sample_world).
Proof.
  pose proof (collection_size sample_world) as (Hcreate & _ & Hremove). split.
  - eapply (Hcreate "g9"). vm_compute. reflexivity.
  - eapply (Hremove "g2"). vm_compute. reflexivity.
Defined.

(** ** findById and what the writing methods leave behind *)

(** X7: on a healthy store [findById] returns the game of the collection with
    that id, and throws [NotFoundException] exactly when there is none. *)
Theorem findById_found_or_NotFound (w : World) (id : Id) :
  healthy w →
  match fst (findById id w) with
  | Ok g => g ∈ games w ∧ g_id g = id ∧ ¬ absent id w
  | Err e => e = NotFoundException ("Game with id: " +:+ id +:+ " not found") ∧ absent id w
  end.
Proof.
  intros Hw. unfold findById, gameModel_findById. run_healthy Hw.
  destruct (List.find (has_id id) (games w)) as [g|] eqn:Hg; simpl.
  - apply find_has_id_Some in Hg as [Hin Hid]. repeat split; [done..|].
    intros Habs. by apply (Habs g).
  - split; [done|]. intros g Hin Hid.
    apply (find_None_all _ _ Hg) in Hin. unfold has_id in Hin.
    by apply bool_decide_eq_false_1 in Hin.
Qed.

Lemma findById_found_or_NotFound_witness :
  match fst (findById "g2" sample_world) with
  | Ok g => g ∈ games sample_world ∧ g_id g = "g2" ∧ ¬ absent "g2" sample_world
  | Err e => e = NotFoundException ("Game with id: " +:+ "g2" +:+ " not found") ∧
             absent "g2" sample_world
  end.
Proof. apply (findById_found_or_NotFound sample_world "g2"). reflexivity. Defined.

Lemma findById_healthy (w : World) (id : Id) g :
  healthy w → List.find (has_id id) (games w) = Some g → fst (findById id w) = Ok g.
Proof.
  intros Hw Hg. unfold findById, gameModel_findById. run_healthy Hw. by rewrite Hg.
Qed.

Lemma find_app_fresh id (gs : list GameDoc) g :
  id ∉ g_id <$> gs → g_id g = id → List.find (has_id id) (gs ++ [g]) = Some g.
Proof.
  intros Hfresh Hid. induction gs as [|g' gs IH]; simpl.
  - by rewrite has_id_eq.
  - rewrite fmap_cons in Hfresh. apply not_elem_of_cons in Hfresh as [Hne Hfresh].
    rewrite has_id_ne by congruence. by apply IH.
Qed.

(** X8: a game that [create] has returned is what [findById] returns for its
    id afterwards. *)
Theorem create_then_findById (w w' : World) (oid : Id) (dto : CreateGameDto) g :
  create oid dto w = (Ok g, w') → healthy w' →
  fst (findById oid w') = Ok g.
Proof.
  intros Hrun Hw'. destruct (create_frame _ _ _ _ _ Hrun) as (_ & _ & _ & Hr).
  destruct Hr as (Hgames & Hid & Hfresh & _).
  apply findById_healthy; [done|]. rewrite Hgames. by apply find_app_fresh.
Qed.

Lemma create_then_findById_witness :
  ∃ g w', create "g9" (new_game_dto None) sample_world = (Ok g, w') ∧
          fst (findById "g9" w') = Ok g.
Proof.
  eexists _, _. split; [vm_compute; reflexivity|].
  eapply (create_then_findById sample_world _ "g9" (new_game_dto None));
    [vm_compute; reflexivity | reflexivity].
Defined.

(** X9: the record that [update] has returned is what [findById] returns for
    that id afterwards. *)
Theorem update_then_findById (w w' : World) (id : Id) (dto : CreateGameDto) g' :
  update id dto w = (Ok g', w') → healthy w' →
  fst (findById id w') = Ok g'.
Proof.
  intros Hrun Hw'. destruct (update_frame _ _ _ _ _ Hrun) as (_ & _ & _ & Hr).
  destruct Hr as (g & Hg & -> & Hgames & _).
  apply findById_healthy; [done|]. rewrite Hgames.
  rewrite find_replace_id by apply apply_update_id.
  rewrite decide_True by done. by rewrite Hg.
Qed.

Lemma update_then_findById_witness :
  ∃ g' w', update "g1" (new_game_dto (Some "Completo")) sample_world = (Ok g', w') ∧
           fst (findById "g1" w') = Ok g'.
Proof.
  eexists _, _. split; [vm_compute; reflexivity|].
  eapply (update_then_findById sample_world _ "g1" (new_game_dto (Some "Completo")));
    [vm_compute; reflexivity | reflexivity].
Defined.

(** X10: after a successful [remove], with ids unique, [findById] of the removed
    id throws [NotFoundException], and every other id is found as before. *)
Theorem remove_then_findById_others (w w' : World) (id : Id) removed :
  remove id w = (Ok removed, w') → unique_ids w → healthy w' →
  fst (findById id w')
  = Err (NotFoundException ("Game with id: " +:+ id +:+ " not found")) ∧
  ∀ id', id' ≠ id →
    List.find (has_id id') (games w') = List.find (has_id id') (games w).
Proof.
  intros Hrun Hnd Hw'. destruct (remove_frame _ _ _ _ Hrun) as (_ & _ & _ & Hr).
  destruct Hr as (g & _ & Hg & Hgames). split.
  - unfold findById, gameModel_findById. run_healthy Hw'.
    rewrite find_has_id_absent; [done|]. rewrite Hgames. by apply delete_id_gone.
  - intros id' Hne. rewrite Hgames. by apply find_delete_id_other.
Qed.

Lemma remove_then_findById_others_witness :
  ∃ removed w', remove "g2" sample_world = (Ok removed, w') ∧
    fst (findById "g2" w')
    = Err (NotFoundException ("Game with id: " +:+ "g2" +:+ " not found")) ∧
    ∀ id', id' ≠ "g2" →
      List.find (has_id id') (games w') = List.find (has_id id') (games sample_world).
Proof.
  eexists _, _. split; [vm_compute; reflexivity|].
  eapply (remove_then_findById_others sample_world _ "g2");
    [vm_compute; reflexivity | apply sample_unique_ids | reflexivity].
Defined.

(** ** findAll *)

(** X11: on a healthy store [findAll] returns the whole collection in its order,
    and what [findByUser] returns, for any user and status, is a sublist of
    it whose games all belong to that user. *)
Theorem findAll_whole_collection (w : World) :
  healthy w →
  fst (findAll w) = Ok (games w) ∧
  ∀ uid st, ∃ r, fst (findByUser uid st w) = Ok r ∧ r `sublist_of` games w ∧
                 ∀ g, g ∈ r → g_userId g = uid.
Proof.
  intros Hw. split.
  - unfold findAll, gameModel_find. run_healthy Hw. by rewrite filter_Matches_all.
  - intros uid st. unfold findByUser, gameModel_find. run_healthy Hw.
    eexists. split; [reflexivity|]. split; [apply sublist_filter|].
    intros g [[Hu _] _]%list_elem_of_filter. by destruct (truthy st).
Qed.

Lemma findAll_whole_collection_witness :
  fst (findAll sample_world) = Ok (games sample_world) ∧
  ∀ uid st, ∃ r, fst (findByUser uid st sample_world) = Ok r ∧
                 r `sublist_of` games sample_world ∧
                 ∀ g, g ∈ r → g_userId g = uid.
Proof. apply (findAll_whole_collection sample_world). reflexivity. Defined.

(** ** Driver failures outside the enrichment queries *)

(** X12: when the driver call fails, [findAll], [findByUser], [findById],
    [getGameDistributionByUser] and [remove] throw the driver's error as it
    is; so do [update] and [create] once the input has passed validation. *)
Theorem driver_failure_propagates (w : World) (m : string) (rest : list (option string)) :
  faults w = Some m :: rest →
  fst (findAll w) = Err (DriverError m) ∧
  (∀ uid st, fst (findByUser uid st w) = Err (DriverError m)) ∧
  (∀ id, fst (findById id w) = Err (DriverError m)) ∧
  (∀ uid, fst (getGameDistributionByUser uid w) = Err (DriverError m)) ∧
  (∀ id, fst (remove id w) = Err (DriverError m)) ∧
  (∀ id dto, status_rejected dto = false → fst (update id dto w) = Err (DriverError m)) ∧
  (∀ oid dto, required_ok dto → status_rejected dto = false →
     fst (create oid dto w) = Err (DriverError m)).
Proof.
  intros Hf. repeat split.
  - unfold findAll, gameModel_find, bind, logger_log, exec. cbv beta iota.
    cbn [faults add_log]. by rewrite Hf.
  - intros uid st. unfold findByUser, gameModel_find, bind, logger_log, exec.
    cbv beta iota. cbn [faults add_log]. by rewrite Hf.
  - intros id. unfold findById, gameModel_findById, bind, logger_log, exec.
    cbv beta iota. cbn [faults add_log]. by rewrite Hf.
  - intros uid. unfold getGameDistributionByUser, gameModel_aggregate_status, bind,
      logger_log, exec.
    cbv beta iota. cbn [faults add_log]. by rewrite Hf.
  - intros id. unfold remove, gameModel_findByIdAndDelete, bind, logger_log, exec.
    cbv beta iota. cbn [faults add_log]. by rewrite Hf.
  - intros id dto Hrej. unfold update, bind, logger_log. cbv beta iota.
    fold (status_rejected dto). rewrite Hrej.
    unfold new_Date, gameModel_findByIdAndUpdate, exec. cbv beta iota.
    cbn [faults add_log]. by rewrite Hf.
  - intros oid dto Hreq Hrej. unfold create, bind, logger_log. cbv beta iota.
    rewrite check_required_run.
    rewrite (proj2 (missing_field_None requiredFields dto) Hreq).
    fold (status_rejected dto). rewrite Hrej.
    unfold gameModel_new, gameModel_save, exec. cbv beta iota.
    cbn [faults add_log]. by rewrite Hf.
Qed.

Lemma driver_failure_propagates_witness :
  fst (findAll (set_faults [Some "timeout"] sample_world)) = Err (DriverError "timeout") ∧
  (∀ uid st, fst (findByUser uid st (set_faults [Some "timeout"] sample_world))
             = Err (DriverError "timeout")) ∧
  (∀ id, fst (findById id (set_faults [Some "timeout"] sample_world))
         = Err (DriverError "timeout")) ∧
  (∀ uid, fst (getGameDistributionByUser uid (set_faults [Some "timeout"] sample_world))
          = Err (DriverError "timeout")) ∧
  (∀ id, fst (remove id (set_faults [Some "timeout"] sample_world))
         = Err (DriverError "timeout")) ∧
  (∀ id dto, status_rejected dto = false →
     fst (update id dto (set_faults [Some "timeout"] sample_world))
     = Err (DriverError "timeout")) ∧
  (∀ oid dto, required_ok dto → status_rejected dto = false →
     fst (create oid dto (set_faults [Some "timeout"] sample_world))
     = Err (DriverError "timeout")).
Proof.
  apply (driver_failure_propagates (set_faults [Some "timeout"] sample_world) "timeout" []).
  reflexivity.
Defined.

(** ** The page of the enrichment queries *)

Lemma recent_newest n (gs : list GameDoc) :
  gs ≡ₚ recent n gs ++ drop n (merge_sort newer_first gs) ∧
  ∀ a b, a ∈ recent n gs → b ∈ drop n (merge_sort newer_first gs) →
         g_updatedAt b ≤ g_updatedAt a.
Proof.
  unfold recent. split.
  - by rewrite take_drop, merge_sort_Permutation.
  - intros a b Ha Hb.
    pose proof (StronglySorted_merge_sort newer_first gs) as Hs.
    rewrite <- (take_drop n (merge_sort newer_first gs)) in Hs.
    exact (StronglySorted_app_1_elem_of _ _ _ a b Hs Ha Hb).
Qed.



(** X14: on a healthy store [getLastGamesUpdatedByUser] returns the at most 5
    most recently updated games of that user and of nobody else, newest
    first, without their [userId]; it returns the empty list when the user
    has no game. *)
Theorem getLastGamesUpdatedByUser_page (w : World) (uid : Id) :
  healthy w →
  ∃ page rest,
    fst (getLastGamesUpdatedByUser uid w)
    = Ok ((λ g, mkFormatted (lean ["_id"; "nome"; "updatedAt"; "updatedBy"; "image"] g)
                            Unknown) <$> page) ∧
    filter (λ g, g_userId g = uid) (games w) ≡ₚ page ++ rest ∧
    length page = (5 `min` length (filter (λ g, g_userId g = uid) (games w)))%nat ∧
    StronglySorted newer_first page ∧
    ∀ a b, a ∈ page → b ∈ rest → g_updatedAt b ≤ g_updatedAt a.
Proof.
  intros Hw.
  assert (Hfilter : filter (Matches (mkFilter (Some uid) None)) (games w)
                    = filter (λ g, g_userId g = uid) (games w)).
  { apply list_filter_iff. intros g. unfold Matches. simpl. tauto. }
  exists (recent 5 (filter (λ g, g_userId g = uid) (games w))),
         (drop 5 (merge_sort newer_first (filter (λ g, g_userId g = uid) (games w)))).
  split; [|split; [apply recent_newest|split; [apply length_recent|split;
    [apply recent_sorted | apply recent_newest]]]].
  unfold getLastGamesUpdatedByUser, gameModel_find_recent, userModel_find_in.
  unfold bind, logger_log, logger_warn, ret. cbv beta iota.
  rewrite exec_healthy by exact Hw. cbv beta iota.
  change (games (add_log _ w)) with (games w). rewrite Hfilter.
  fold (recent 5 (filter (λ g, g_userId g = uid) (games w))).
  set (docs := recent 5 _).
  assert (Hpage : Forall (λ game, l_userId game = None)
            (lean ["_id"; "nome"; "updatedAt"; "updatedBy"; "image"] <$> docs)).
  { by apply Forall_fmap, Forall_forall. }
  destruct docs as [|g docs']; [reflexivity|].
  rewrite fmap_cons in *. cbv beta iota.
  rewrite exec_healthy by exact Hw. cbv beta iota. cbn [fst].
  rewrite filter_users_no_ids by done. f_equal.
  rewrite <- fmap_cons, <- list_fmap_compose. reflexivity.
Qed.

Lemma getLastGamesUpdatedByUser_page_witness :
  ∃ page rest,
    fst (getLastGamesUpdatedByUser "u1" sample_world)
    = Ok ((λ g, mkFormatted (lean ["_id"; "nome"; "updatedAt"; "updatedBy"; "image"] g)
                            Unknown) <$> page) ∧
    filter (λ g, g_userId g = "u1") (games sample_world) ≡ₚ page ++ rest ∧
    length page
    = (5 `min` length (filter (λ g, g_userId g = "u1") (games sample_world)))%nat ∧
    StronglySorted newer_first page ∧
    ∀ a b, a ∈ page → b ∈ rest → g_updatedAt b ≤ g_updatedAt a.
Proof. apply (getLastGamesUpdatedByUser_page sample_world "u1"). reflexivity. Defined.

(** ** The distribution and findByUser *)

(** X15: the count the distribution records for a non-empty status other
    than ["__proto__"] (0 when the status is not a key) is the number of
    games [findByUser] returns for that user and status. *)
Theorem distribution_agrees_with_findByUser (w : World) (uid : Id) (s : string)
    (d : gmap string nat) (r : list GameDoc) :
  healthy w → s ≠ "" → s ≠ "__proto__" →
  fst (getGameDistributionByUser uid w) = Ok d →
  fst (findByUser uid (Some s) w) = Ok r →
  default 0%nat (d !! s) = length r.
Proof.
  intros Hw Hs Hproto. unfold getGameDistributionByUser, gameModel_aggregate_status,
    findByUser, gameModel_find.
  run_healthy Hw. rewrite exec_healthy by exact Hw. simpl.
  intros [= <-] [= <-].
  rewrite reduce_lookup by apply NoDup_group_count.
  rewrite decide_False by done.
  rewrite assoc_group_count, occurrences_status, lookup_empty.
  destruct s as [|a s]; [done|]. simpl.
  assert (Hflt : filter (Matches (mkFilter (Some uid) (Some (String a s)))) (games w)
                 = filter (λ g, g_userId g = uid ∧ g_status g = String a s) (games w)).
  { apply list_filter_iff. intros g. unfold Matches. simpl. tauto. }
  rewrite Hflt. by destruct (decide _) as [->|].
Qed.

Lemma distribution_agrees_with_findByUser_witness :
  ∃ d r, fst (getGameDistributionByUser "u1" sample_world) = Ok d ∧
         fst (findByUser "u1" (Some "Pendente") sample_world) = Ok r ∧
         default 0%nat (d !! "Pendente") = length r.
Proof.
  eexists _, _. split; [reflexivity|]. split; [vm_compute; reflexivity|].
  apply (distribution_agrees_with_findByUser sample_world "u1" "Pendente");
    [reflexivity | discriminate | discriminate | reflexivity | vm_compute; reflexivity].
Defined.

Lemma list_to_map_assoc (groups : list (string * nat)) k :
  (list_to_map groups : gmap string nat) !! k = assoc k groups.
Proof.
  induction groups as [|[k' n] groups IH]; [apply lookup_empty|]. simpl.
  destruct (decide (k' = k)) as [->|Hne].
  - apply lookup_insert_eq.
  - by rewrite lookup_insert_ne.
Qed.

Lemma sum_group_add key (groups : list (string * nat)) :
  sum_list (group_add key groups).*2 = S (sum_list groups.*2).
Proof.
  induction groups as [|[k n] groups IH]; [done|]. cbn [group_add].
  destruct (decide (k = key)); rewrite !fmap_cons; cbn [snd sum_list_with id].
  - done.
  - rewrite IH. lia.
Qed.

Lemma sum_group_count (keys : list string) :
  sum_list (group_count keys).*2 = length keys.
Proof.
  induction keys as [|key keys IH] using rev_ind; [done|].
  rewrite group_count_snoc, sum_group_add, IH, length_app. simpl. lia.
Qed.

(** X16: when no game of the user has the status ["__proto__"], the counts
    of the distribution add up to the number of games [findByUser] returns
    for that user without a status. *)
Theorem distribution_total (w : World) (uid : Id) (d : gmap string nat)
    (r : list GameDoc) :
  healthy w →
  (∀ g, g ∈ games w → g_userId g = uid → g_status g ≠ "__proto__") →
  fst (getGameDistributionByUser uid w) = Ok d →
  fst (findByUser uid None w) = Ok r →
  sum_list (map_to_list d).*2 = length r.
Proof.
  intros Hw Hnone. unfold getGameDistributionByUser, gameModel_aggregate_status,
    findByUser, gameModel_find.
  run_healthy Hw. rewrite exec_healthy by exact Hw. simpl.
  intros [= <-] [= <-].
  set (keys := g_status <$> filter (Matches (mkFilter (Some uid) None)) (games w)).
  assert (Hkeys : "__proto__" ∉ (group_count keys).*1).
  { intros (g & Hst & [[Hu _] Hg]%list_elem_of_filter)%group_count_keys%list_elem_of_fmap.
    by apply (Hnone g Hg Hu). }
  assert (Hmap : foldl (λ (acc : gmap string nat) (game : string * nat),
                          js_assign game.1 game.2 acc) ∅ (group_count keys)
                 = list_to_map (group_count keys)).
  { apply map_eq. intros k. rewrite reduce_lookup by apply NoDup_group_count.
    rewrite list_to_map_assoc, lookup_empty. destruct (decide (k = "__proto__")) as [->|].
    - by rewrite assoc_not_elem.
    - by destruct (assoc k _). }
  rewrite Hmap. rewrite (map_to_list_to_map _ (NoDup_group_count keys)).
  rewrite sum_group_count. unfold keys. by rewrite length_fmap.
Qed.

Lemma sample_no_proto g :
  g ∈ games sample_world → g_userId g = "u1" → g_status g ≠ "__proto__".
Proof.
  intros Hg _. vm_compute in Hg.
  repeat (apply elem_of_cons in Hg as [->|Hg]; [intros [=]|]).
  by apply elem_of_nil in Hg.
Qed.

Lemma distribution_total_witness :
  ∃ d r, fst (getGameDistributionByUser "u1" sample_world) = Ok d ∧
         fst (findByUser "u1" None sample_world) = Ok r ∧
         sum_list (map_to_list d).*2 = length r.
Proof.
  eexists _, _. split; [reflexivity|]. split; [vm_compute; reflexivity|].
  apply (distribution_total sample_world "u1");
    [reflexivity | apply sample_no_proto | reflexivity | vm_compute; reflexivity].
Defined.

(** ** What the error log shows *)

(** X17: every [BadRequestException] of [create] and [update] and every
    [NotFoundException] of [findById] is thrown right after an ERROR entry
    with the same message; the [TypeError] of [remove] is thrown with
    nothing but the opening LOG entry written. *)
Theorem thrown_errors_and_the_log (w : World) :
  (∀ oid dto m, fst (create oid dto w) = Err (BadRequestException m) →
     last (logged (snd (create oid dto w))) = Some (ERROR, m)) ∧
  (∀ id dto m, fst (update id dto w) = Err (BadRequestException m) →
     last (logged (snd (update id dto w))) = Some (ERROR, m)) ∧
  (∀ id m, fst (findById id w) = Err (NotFoundException m) →
     last (logged (snd (findById id w))) = Some (ERROR, m)) ∧
  (∀ id m, fst (remove id w) = Err (TypeError m) →
     logged (snd (remove id w))
     = (logged w ++ [(LOG, "Removing game with id: " +:+ id)])%list).
Proof.
  split; [|split; [|split]].
  - intros oid dto m. unfold create, bind, logger_log, logger_error, throw.
    cbv beta iota. rewrite check_required_run. fold (status_rejected dto).
    destruct (missing_field requiredFields dto) as [field|].
    { cbn [fst snd logged add_log]. intros [= <-]. apply last_snoc. }
    destruct (status_rejected dto).
    { cbn [fst snd logged add_log]. intros [= <-]. apply last_snoc. }
    unfold gameModel_new, gameModel_save, exec, ret. cbv beta iota.
    cbn [faults add_log]. destruct (faults w) as [|[?|] ?]; cbv beta iota;
      try case_bool_decide; cbn [fst]; done.
  - intros id dto m. unfold update, bind, logger_log, logger_error, throw.
    cbv beta iota. fold (status_rejected dto).
    destruct (status_rejected dto).
    { cbn [fst snd logged add_log]. intros [= <-]. apply last_snoc. }
    unfold new_Date, gameModel_findByIdAndUpdate, exec, ret. cbv beta iota.
    cbn [faults add_log games set_faults].
    destruct (faults w) as [|[?|] ?]; cbv beta iota;
      cbn [faults add_log games set_faults set_games fst snd logged]; try done;
      destruct (List.find _ _); cbn [fmap option_fmap option_map];
      cbv beta iota; cbn [fst snd logged add_log set_games set_faults]; try done;
      intros [= <-]; apply last_snoc.
  - intros id m. unfold findById, gameModel_findById, bind, logger_log, logger_error,
      throw, exec, ret.
    cbv beta iota. cbn [faults add_log games set_faults].
    destruct (faults w) as [|[?|] ?]; cbv beta iota;
      cbn [faults add_log games set_faults fst snd logged]; try done;
      destruct (List.find _ _); cbv beta iota;
      cbn [fst snd logged add_log set_faults]; try done;
      intros [= <-]; apply last_snoc.
  - intros id m. unfold remove, gameModel_findByIdAndDelete, get_id, bind, logger_log,
      throw, exec, ret.
    cbv beta iota. cbn [faults add_log games set_faults].
    destruct (faults w) as [|[?|] ?]; cbv beta iota;
      cbn [faults add_log games set_faults set_games fst snd logged]; try done;
      destruct (List.find _ _); cbv beta iota;
      cbn [fst snd logged add_log set_faults set_games]; done.
Qed.

Lemma thrown_errors_and_the_log_witness :
  last (logged (snd (create "g9" (new_game_dto (Some "Bogus")) sample_world)))
  = Some (ERROR, "Invalid status: Bogus") ∧
  last (logged (snd (findById "g9" sample_world)))
  = Some (ERROR, "Game with id: g9 not found").
Proof.
  pose proof (thrown_errors_and_the_log sample_world) as (Hcreate & _ & Hfind & _).
  split.
  - apply (Hcreate "g9" (new_game_dto (Some "Bogus"))). vm_compute. reflexivity.
  - apply (Hfind "g9"). vm_compute. reflexivity.
Defined.

(** ** After a remove *)

(** X18: once [remove] has succeeded, with ids unique, a second [remove] of the
    same id throws the [TypeError], and an [update] of it whose status
    passes the check throws the not-found [BadRequestException]. *)
Theorem remove_then_remove_or_update (w w' : World) (id : Id) removed :
  remove id w = (Ok removed, w') → unique_ids w → healthy w' →
  fst (remove id w')
  = Err (TypeError "Cannot read properties of null (reading '_id')") ∧
  ∀ dto, status_rejected dto = false →
    fst (update id dto w')
    = Err (BadRequestException ("Game with id: " +:+ id +:+ " not found")).
Proof.
  intros Hrun Hnd Hw'. destruct (remove_frame _ _ _ _ Hrun) as (_ & _ & _ & Hr).
  destruct Hr as (g & _ & Hg & Hgames).
  assert (Hgone : List.find (has_id id) (games w') = None).
  { apply find_has_id_absent. rewrite Hgames. by apply delete_id_gone. }
  split.
  - unfold remove, gameModel_findByIdAndDelete. run_healthy Hw'. by rewrite Hgone.
  - intros dto Hrej. unfold update, gameModel_findByIdAndUpdate. run.
    fold (status_rejected dto). rewrite Hrej. run_healthy Hw'. by rewrite Hgone.
Qed.

Lemma remove_then_remove_or_update_witness :
  ∃ removed w', remove "g2" sample_world = (Ok removed, w') ∧
    fst (remove "g2" w')
    = Err (TypeError "Cannot read properties of null (reading '_id')") ∧
    ∀ dto, status_rejected dto = false →
      fst (update "g2" dto w')
      = Err (BadRequestException ("Game with id: " +:+ "g2" +:+ " not found")).
Proof.
  eexists _, _. split; [vm_compute; reflexivity|].
  eapply (remove_then_remove_or_update sample_world _ "g2");
    [vm_compute; reflexivity | apply sample_unique_ids | reflexivity].
Defined.

(** ** The distribution of a user without games *)

(** X19: for a user who owns no game the distribution is the empty object. *)
Theorem distribution_of_user_without_games (w : World) (uid : Id) :
  healthy w → (∀ g, g ∈ games w → g_userId g ≠ uid) →
  fst (getGameDistributionByUser uid w) = Ok ∅.
Proof.
  intros Hw Hnone. unfold getGameDistributionByUser, gameModel_aggregate_status.
  run_healthy Hw. rewrite filter_none; [done|].
  intros g Hg [Hu _]. by apply (Hnone g).
Qed.

Lemma no_games_of_u9 : ∀ g, g ∈ games sample_world → g_userId g ≠ "u9".
Proof.
  intros g Hg. vm_compute in Hg.
  repeat (apply elem_of_cons in Hg as [->|Hg]; [intros [=]|]).
  by apply elem_of_nil in Hg.
Qed.

Lemma distribution_of_user_without_games_witness :
  fst (getGameDistributionByUser "u9" sample_world) = Ok ∅.
Proof.
  apply (distribution_of_user_without_games sample_world "u9");
    [reflexivity | apply no_games_of_u9].
Defined.
